(** * The content store of gridsome: node collections and type inference

    A shallow embedding of [gridsome/lib/app/ContentTypeCollection.js]
    (the node lifecycle of one content type: [createNode], [addNode],
    [updateNode], [removeNode], field normalisation and path generation)
    and of the schema's [inferTypes] / [inferType], with the properties
    the specification states about them.

    Conventions of the embedding.
    - A JavaScript value is a [JsVal]; an object is the list of its own
      enumerable properties in [for ... in] order, each key once.
    - A string is a [string] of 8-bit code units.
    - Code that can throw returns an [Outcome]; code that mutates the
      shared store or [this] takes the state and returns the new one; the
      time a method reads with [Date] is an argument.
    - The packages the modules require (camelcase, slugify, crypto, moment),
      the transformer registry and the helpers defined in other files are
      the fields of the class [Externals]. *)

From Stdlib Require Import ZArith Strings.String Strings.Ascii List Bool Lia.
From Stdlib Require Import DecimalString.
From stdpp Require Import base option list gmap strings.

Import ListNotations.
Local Open Scope string_scope.
Local Open Scope Z_scope.

(* ===================================================================== *)
(** ** Characters and strings *)
(* ===================================================================== *)

Module Str.

Definition code (c : ascii) : nat := nat_of_ascii c.

Definition is_digit (c : ascii) : bool :=
  (48 <=? code c)%nat && (code c <=? 57)%nat.

Definition is_upper (c : ascii) : bool :=
  (65 <=? code c)%nat && (code c <=? 90)%nat.

Definition is_lower (c : ascii) : bool :=
  (97 <=? code c)%nat && (code c <=? 122)%nat.

Definition is_letter (c : ascii) : bool := is_upper c || is_lower c.

Definition is_underscore (c : ascii) : bool := (code c =? 95)%nat.

(** The class [[a-zA-Z0-9_]], the complement of [nonValidCharsRE]. *)
Definition is_word (c : ascii) : bool :=
  is_letter c || is_digit c || is_underscore c.

Definition to_lower (c : ascii) : ascii :=
  if is_upper c then ascii_of_nat (code c + 32) else c.

Definition to_upper (c : ascii) : ascii :=
  if is_lower c then ascii_of_nat (code c - 32) else c.

Fixpoint map (f : ascii -> ascii) (s : string) : string :=
  match s with
  | EmptyString => EmptyString
  | String c r => String (f c) (map f r)
  end.

Fixpoint forallb (p : ascii -> bool) (s : string) : bool :=
  match s with
  | EmptyString => true
  | String c r => p c && forallb p r
  end.

(** [s.startsWith(p)] *)
Fixpoint startsWith (p s : string) : bool :=
  match p, s with
  | EmptyString, _ => true
  | String a p', String b s' => Ascii.eqb a b && startsWith p' s'
  | String _ _, EmptyString => false
  end.

(** [s.includes(p)] *)
Fixpoint includes (p s : string) : bool :=
  startsWith p s ||
  match s with
  | EmptyString => false
  | String _ r => includes p r
  end.

(** The decimal numeral of an array index. *)
Definition of_nat (n : nat) : string := NilEmpty.string_of_uint (Nat.to_uint n).

End Str.

(** [key.replace(nonValidCharsRE, '_')] with
    [nonValidCharsRE = /[^a-zA-Z0-9_]/g]. *)
Definition replaceNonValidChars (key : string) : string :=
  Str.map (fun c => if Str.is_word c then c else "_"%char) key.

(** [key.replace(leadingNumberRE, '_$1')] with [leadingNumberRE = /^([0-9])/]. *)
Definition prefixLeadingNumber (key : string) : string :=
  match key with
  | String c _ => if Str.is_digit c then String "_" key else key
  | EmptyString => key
  end.

(** [path.replace(/^\/+/g, '')] *)
Fixpoint stripLeadingSlashes (path : string) : string :=
  match path with
  | String c r => if Ascii.eqb c "/" then stripLeadingSlashes r else path
  | EmptyString => path
  end.

(* ===================================================================== *)
(** ** JavaScript values *)
(* ===================================================================== *)

(** A number: an integer (the two zeros are one), a finite number that is
    not an integer, written [(2k+1) / 2^e], an infinity, or NaN. *)
Inductive JsNum : Type :=
| NInt (z : Z)
| NFrac (k : Z) (e : positive)
| NInf (negative : bool)
| NNaN.

#[local] Set Warnings "-register-all".

Inductive JsVal : Type :=
| JUndefined
| JNull
| JBool (b : bool)
| JNum (n : JsNum)
| JStr (s : string)
| JArr (items : list JsVal)
| JObj (props : list (string * JsVal)).

(** An object as the code handles it: own properties in enumeration order. *)
Definition Obj : Type := list (string * JsVal).

Section JsVal_induction.
Variable P : JsVal -> Prop.
Hypothesis P_undefined : P JUndefined.
Hypothesis P_null : P JNull.
Hypothesis P_bool : forall b, P (JBool b).
Hypothesis P_num : forall n, P (JNum n).
Hypothesis P_str : forall s, P (JStr s).
Hypothesis P_arr : forall items, Forall P items -> P (JArr items).
Hypothesis P_obj : forall props, Forall (fun kv => P (snd kv)) props -> P (JObj props).

Fixpoint JsVal_nested_ind (v : JsVal) : P v :=
  match v with
  | JUndefined => P_undefined
  | JNull => P_null
  | JBool b => P_bool b
  | JNum n => P_num n
  | JStr s => P_str s
  | JArr items =>
      P_arr items
        ((fix go (l : list JsVal) : Forall P l :=
            match l with
            | [] => @ListDef.Forall_nil _ P
            | x :: r => @ListDef.Forall_cons _ P x r (JsVal_nested_ind x) (go r)
            end) items)
  | JObj props =>
      P_obj props
        ((fix go (l : list (string * JsVal)) : Forall (fun kv => P (snd kv)) l :=
            match l with
            | [] => @ListDef.Forall_nil _ _
            | kv :: r => @ListDef.Forall_cons _ _ kv r (JsVal_nested_ind (snd kv)) (go r)
            end) props)
  end.
End JsVal_induction.

(** [!!v] *)
Definition truthy (v : JsVal) : bool :=
  match v with
  | JUndefined | JNull => false
  | JBool b => b
  | JNum (NInt z) => negb (z =? 0)
  | JNum NNaN => false
  | JNum _ => true
  | JStr s => negb (String.eqb s "")
  | JArr _ | JObj _ => true
  end.

(** [a || b]; the right operand is only evaluated when it is needed, so
    where it can throw the code is embedded with a [match] on [truthy]. *)
Definition or_else (a b : JsVal) : JsVal := if truthy a then a else b.

Infix "|||" := or_else (at level 50, left associativity).

Inductive JsType : Type :=
| TUndefined | TObject | TBoolean | TNumber | TString.

(** [typeof v] *)
Definition typeof (v : JsVal) : JsType :=
  match v with
  | JUndefined => TUndefined
  | JNull | JArr _ | JObj _ => TObject
  | JBool _ => TBoolean
  | JNum _ => TNumber
  | JStr _ => TString
  end.

Definition isArray (v : JsVal) : bool :=
  match v with JArr _ => true | _ => false end.

(** lodash's [isObject]: not null, and of type object (or function). *)
Definition isObject (v : JsVal) : bool :=
  match v with JArr _ | JObj _ => true | _ => false end.

(** *** Properties *)

Fixpoint obj_get (o : Obj) (k : string) : JsVal :=
  match o with
  | [] => JUndefined
  | (k', v) :: r => if String.eqb k' k then v else obj_get r k
  end.

Fixpoint obj_has (o : Obj) (k : string) : bool :=
  match o with
  | [] => false
  | (k', _) :: r => String.eqb k' k || obj_has r k
  end.

(** [o[k] = v]: an existing property keeps its place, a new one goes last. *)
Fixpoint obj_set (o : Obj) (k : string) (v : JsVal) : Obj :=
  match o with
  | [] => [(k, v)]
  | (k', v') :: r =>
      if String.eqb k' k then (k', v) :: r else (k', v') :: obj_set r k v
  end.

Fixpoint indexed_from (i : nat) (items : list JsVal) : Obj :=
  match items with
  | [] => []
  | x :: r => (Str.of_nat i, x) :: indexed_from (S i) r
  end.

Definition chars (s : string) : list JsVal :=
  List.map (fun c => JStr (String c EmptyString)) (list_ascii_of_string s).

(** The own enumerable string-keyed properties of a value, as [for ... in],
    [Object.keys] and [Object.assign] see them. *)
Definition own_props (v : JsVal) : Obj :=
  match v with
  | JObj props => props
  | JArr items => indexed_from 0 items
  | JStr s => indexed_from 0 (chars s)
  | _ => []
  end.

(** [v[k]] where [v] is known not to be null or undefined. *)
Definition get (v : JsVal) (k : string) : JsVal := obj_get (own_props v) k.

(** [v.hasOwnProperty(k)] *)
Definition hasOwnProperty (v : JsVal) (k : string) : bool := obj_has (own_props v) k.

(* ===================================================================== *)
(** ** Outcomes: a value or a thrown error *)
(* ===================================================================== *)

Inductive JsError : Type :=
| TypeError                       (* a property of null or undefined *)
| Error (message : string)        (* [new Error(message)] *)
| UniqueViolation (field : string)  (* the document store's insert *)
| Raised (tag : string).          (* whatever a collaborator throws *)

Inductive Outcome (A : Type) : Type :=
| Ok (a : A)
| Throw (e : JsError).

Arguments Ok {A} a.
Arguments Throw {A} e.

#[global] Instance Outcome_ret : MRet Outcome := fun A a => Ok a.

#[global] Instance Outcome_bind : MBind Outcome := fun A B f m =>
  match m with
  | Ok a => f a
  | Throw e => Throw e
  end.

(** [v[k]] where [v] may be null or undefined. *)
Definition get_checked (v : JsVal) (k : string) : Outcome JsVal :=
  match v with
  | JUndefined | JNull => Throw TypeError
  | _ => Ok (get v k)
  end.

(** [a === b]. Arrays and objects are compared by content: the embedding
    has no object identity, and the identifiers the store compares are
    primitive values. *)
Definition num_eq (a b : JsNum) : bool :=
  match a, b with
  | NInt x, NInt y => x =? y
  | NFrac k e, NFrac k' e' => (k =? k') && (e =? e')%positive
  | NInf s, NInf s' => Bool.eqb s s'
  | _, _ => false
  end.

Fixpoint strict_eq (a b : JsVal) {struct a} : bool :=
  match a, b with
  | JUndefined, JUndefined => true
  | JNull, JNull => true
  | JBool x, JBool y => Bool.eqb x y
  | JNum x, JNum y => num_eq x y
  | JStr x, JStr y => String.eqb x y
  | JArr xs, JArr ys =>
      (fix go (xs ys : list JsVal) {struct xs} : bool :=
         match xs, ys with
         | [], [] => true
         | x :: xs', y :: ys' => strict_eq x y && go xs' ys'
         | _, _ => false
         end) xs ys
  | JObj ps, JObj qs =>
      (fix go (ps qs : list (string * JsVal)) {struct ps} : bool :=
         match ps, qs with
         | [], [] => true
         | (k, x) :: ps', (k', y) :: qs' =>
             String.eqb k k' && strict_eq x y && go ps' qs'
         | _, _ => false
         end) ps qs
  | _, _ => false
  end.

(** [belongsTo]: for each type name, the identifiers set to [true]. *)
Abbreviation BelongsTo := (gmap string (gset string)).

(* ===================================================================== *)
(** ** Schema types (the [graphql] package's constructors) *)
(* ===================================================================== *)

(** The [resolve] function [inferType] attaches to a list field: the
    stored value when it is an array, the empty array otherwise. *)
Definition resolveList (fields : JsVal) (fieldName : string) : JsVal :=
  let value := get fields fieldName in
  if isArray value then value else JArr [].

Inductive Resolver : Type :=
| ResolveList          (* [resolveList] *)
| ResolveExternal (name : string).

Inductive GraphQLType : Type :=
| GraphQLInt
| GraphQLFloat
| GraphQLString
| GraphQLBoolean
| GraphQLList (ofType : GraphQLType)
| GraphQLObjectType (name : string) (fields : list (string * option FieldConfig))
| GraphQLExternalType (name : string)
with FieldConfig : Type :=
| mkFieldConfig (type : GraphQLType) (resolve : option Resolver).

Definition fc_type (c : FieldConfig) : GraphQLType :=
  match c with mkFieldConfig t _ => t end.

Definition fc_resolve (c : FieldConfig) : option Resolver :=
  match c with mkFieldConfig _ r => r end.

(* ===================================================================== *)
(** ** The collaborators outside the two modules *)
(* ===================================================================== *)

(** What the modules require and do not define: npm packages, the plugin
    store's transformer registry, and the helpers of [../utils],
    [./types/date] and the base store, whose sources are outside the files
    embedded here. The development is parametric in them. *)
Class Externals : Type := {
  (** [camelCase(s)] of the camelcase package *)
  camelCase : string -> string;
  (** [camelCase(s, { pascalCase: true })] *)
  pascalCase : string -> string;
  (** [slugify(s, { separator: '-' })] of @sindresorhus/slugify *)
  slugify_pkg : JsVal -> Outcome string;
  (** [crypto.createHash('md5').update(s).digest('hex')] *)
  md5_hex : string -> string;
  (** [JSON.stringify] *)
  JSON_stringify : Obj -> string;
  (** the decimal form of a number, as [String(n)] gives it *)
  Number_toString : JsNum -> string;
  (** [isResolvablePath] of [../utils] *)
  isResolvablePath : string -> bool;
  (** [pluginStore._app.resolveFilePath(origin, path, resolveAbsolutePaths)] *)
  app_resolveFilePath : JsVal -> string -> bool -> JsVal;
  (** [pluginStore._transformers[mimeType]], by its [parse(content)] *)
  transformers : string -> option (JsVal -> Outcome JsVal);
  (** [moment.utc(date, ISO_8601_FORMAT, true).format(token)] *)
  moment_format : JsVal -> string -> string;
  (** [isDate] and [dateType] of [./types/date] *)
  isDate : JsVal -> bool;
  dateType : FieldConfig;
  (** The fields the base store declares unique on its node index. The
      index is created by the base store, outside these files. *)
  index_unique : list string
}.

(* ===================================================================== *)
(** ** A concrete environment *)
(* ===================================================================== *)

(** Stand-ins for the collaborators, used to run the model on examples.
    [camelCase] follows the camelcase package (5.x) on ASCII strings;
    [slugify] lower-cases and turns each run of characters outside
    [[a-z0-9]] into one separator; the digest is a tagged copy of its input
    (all that is used of md5 is that it is a function); numbers print as
    integers. One markdown transformer is registered. *)
Module Sample.

Definition is_separator (c : ascii) : bool :=
  match c with
  | "_"%char | "."%char | "-"%char | " "%char => true
  | _ => false
  end.

Definition word_or_separator (c : ascii) : bool :=
  Str.is_word c || is_separator c.

Definition is_space (c : ascii) : bool :=
  let n := Str.code c in ((9 <=? n)%nat && (n <=? 13)%nat) || (n =? 32)%nat.

Fixpoint drop_while (p : ascii -> bool) (l : list ascii) : list ascii :=
  match l with
  | c :: r => if p c then drop_while p r else l
  | [] => []
  end.

Definition trim (l : list ascii) : list ascii :=
  rev (drop_while is_space (rev (drop_while is_space l))).

(** The loop of the package's [preserveCamelCase]: a ["-"] goes before an
    upper-case letter that follows a lower-case one, and before the last of
    a run of upper-case letters that a lower-case letter follows. [out] is
    the text so far, last character first. *)
Fixpoint preserveCamelCase (l : list ascii) (lastLower lastUpper lastLastUpper : bool)
    (out : list ascii) : list ascii :=
  match l with
  | [] => rev out
  | c :: r =>
      if lastLower && Str.is_upper c then
        preserveCamelCase r false true lastUpper (c :: "-"%char :: out)
      else if lastUpper && lastLastUpper && Str.is_lower c then
        preserveCamelCase r true false false
          (match out with
           | prev :: out' => c :: prev :: "-"%char :: out'
           | [] => [c]
           end)
      else
        preserveCamelCase r (Str.is_lower c) (Str.is_upper c) lastUpper (c :: out)
  end.

(** What [/[_.\- ]+(\w|$)/] leaves of a run of separators that neither a
    word character nor the end follows: the run is matched up to its last
    ["_"] when that is not its first character. [run] is the run, last
    character first. *)
Fixpoint unmatched_run (run : list ascii) : list ascii :=
  match run with
  | [] => []
  | [c] => [c]
  | c :: before =>
      if Str.is_underscore c then ["_"%char] else (unmatched_run before ++ [c])%list
  end.

(** [.replace(/[_.\- ]+(\w|$)/g, (_, p1) => p1.toUpperCase())]; [run] is
    the run of separators being read, last character first. *)
Fixpoint upperAfterSeparators (l : list ascii) (run : list ascii) : list ascii :=
  match l with
  | [] => []
  | c :: r =>
      if is_separator c then upperAfterSeparators r (c :: run)
      else
        match run with
        | [] => c :: upperAfterSeparators r []
        | _ =>
            if Str.is_word c then Str.to_upper c :: upperAfterSeparators r []
            else (unmatched_run run ++ c :: upperAfterSeparators r [])%list
        end
  end.

(** [.replace(/\d+(\w|$)/g, m => m.toUpperCase())]: the character after a
    run of digits is upper-cased. *)
Fixpoint upperAfterDigits (l : list ascii) (afterDigit : bool) : list ascii :=
  match l with
  | [] => []
  | c :: r =>
      (if afterDigit then Str.to_upper c else c) :: upperAfterDigits r (Str.is_digit c)
  end.

Definition camelCase_chars (pascal : bool) (input : list ascii) : list ascii :=
  match trim input with
  | [] => []
  | [c] => [if pascal then Str.to_upper c else Str.to_lower c]
  | input =>
      let input :=
        if existsb Str.is_upper input
        then preserveCamelCase input false false false []
        else input in
      let input := List.map Str.to_lower (drop_while is_separator input) in
      let input := upperAfterDigits (upperAfterSeparators input []) false in
      match input with
      | c :: r => (if pascal then Str.to_upper c else c) :: r
      | [] => []
      end
  end.

Definition camelCase (s : string) : string :=
  string_of_list_ascii (camelCase_chars false (list_ascii_of_string s)).

Definition pascalCase (s : string) : string :=
  string_of_list_ascii (camelCase_chars true (list_ascii_of_string s)).

Definition is_slug_char (c : ascii) : bool := Str.is_lower c || Str.is_digit c.

(** Each run of characters outside [[a-z0-9]] becomes one ["-"], none at
    either end. [pending] says a separator is owed before the next
    character. *)
Fixpoint slug_chars (l : list ascii) (started pending : bool) : list ascii :=
  match l with
  | [] => []
  | c :: r =>
      let c := Str.to_lower c in
      if is_slug_char c then
        (if started && pending then ["-"%char; c] else [c]) ++ slug_chars r true false
      else slug_chars r started true
  end%list.

Definition slugify (v : JsVal) : Outcome string :=
  match v with
  | JStr s => Ok (string_of_list_ascii (slug_chars (list_ascii_of_string s) false false))
  | _ => Throw TypeError
  end.

Definition digest (s : string) : string := "md5:" +:+ s.

Definition number (n : JsNum) : string :=
  match n with
  | NInt z => NilEmpty.string_of_int (Z.to_int z)
  | NFrac _ _ => "<fraction>"
  | NInf false => "Infinity"
  | NInf true => "-Infinity"
  | NNaN => "NaN"
  end.

Definition quote : string := String (ascii_of_nat 34) EmptyString.

(** [JSON.stringify] without escapes; properties that are [undefined]
    are left out. *)
Fixpoint json (v : JsVal) : string :=
  match v with
  | JUndefined | JNull => "null"
  | JBool true => "true"
  | JBool false => "false"
  | JNum n => number n
  | JStr s => quote +:+ s +:+ quote
  | JArr items =>
      "[" +:+ (fix go (l : list JsVal) : string :=
                 match l with
                 | [] => ""
                 | [x] => json x
                 | x :: r => json x +:+ "," +:+ go r
                 end) items +:+ "]"
  | JObj props =>
      "{" +:+ (fix go (l : list (string * JsVal)) (first : bool) : string :=
                 match l with
                 | [] => ""
                 | (_, JUndefined) :: r => go r first
                 | (k, x) :: r =>
                     (if first then "" else ",") +:+ quote +:+ k +:+ quote +:+ ":"
                     +:+ json x +:+ go r false
                 end) props true +:+ "}"
  end.

Definition isResolvablePath (s : string) : bool :=
  Str.startsWith "./" s || Str.startsWith "../" s.

Definition resolveFilePath (origin : JsVal) (path : string) (absolute : bool) : JsVal :=
  JStr ((if absolute then "/abs/" else "") +:+ path).

(** The parse of the one transformer: a title and one field. *)
Definition markdown (content : JsVal) : Outcome JsVal :=
  Ok (JObj [("title", JStr "Title from the file");
            ("fields", JObj [("category", JStr "news")])]).

Definition transformers (mimeType : string) : option (JsVal -> Outcome JsVal) :=
  if String.eqb mimeType "text/markdown" then Some markdown else None.

(** The year, month or day of a date written [YYYY-MM-DD...]. *)
Definition format (date : JsVal) (token : string) : string :=
  match date with
  | JStr s =>
      if String.eqb token "YYYY" then String.substring 0 4 s
      else if String.eqb token "MM" then String.substring 5 2 s
      else if String.eqb token "DD" then String.substring 8 2 s
      else "Invalid date"
  | _ => "Invalid date"
  end.

Definition isDate (v : JsVal) : bool :=
  match v with
  | JStr s =>
      (String.length s =? 10)%nat
      && Str.forallb (fun c => Str.is_digit c || (Str.code c =? 45)%nat) s
  | _ => false
  end.

Definition dateType : FieldConfig :=
  mkFieldConfig (GraphQLExternalType "Date") (Some (ResolveExternal "date")).

(** The environment, given the unique fields of the node index. *)
Definition env (unique : list string) : Externals :=
  Build_Externals camelCase pascalCase slugify digest (fun o => json (JObj o))
    number isResolvablePath resolveFilePath transformers format isDate dateType
    unique.

End Sample.

Section Model.

Context `{E : Externals}.

(** [String(v)], which is also how a value becomes a property key. *)
Fixpoint toString (v : JsVal) : string :=
  match v with
  | JUndefined => "undefined"
  | JNull => "null"
  | JBool true => "true"
  | JBool false => "false"
  | JNum n => Number_toString n
  | JStr s => s
  | JArr items =>
      (fix join (l : list JsVal) : string :=
         match l with
         | [] => ""
         | x :: r =>
             let sx := match x with
                       | JUndefined | JNull => ""
                       | _ => toString x
                       end in
             match r with
             | [] => sx
             | _ => sx +:+ "," +:+ join r
             end
         end) items
  | JObj _ => "[object Object]"
  end.

(* --------------------------------------------------------------------- *)
(** *** The field normaliser: [processNodeFields] *)
(* --------------------------------------------------------------------- *)

(** [isRefField] *)
Definition isRefField (field : JsVal) : bool :=
  match typeof field with
  | TObject =>
      (length (own_props field) =? 2)%nat
      && hasOwnProperty field "typeName"
      && hasOwnProperty field "id"
  | _ => false
  end.

(** [processRefField({ typeName, id })] *)
Definition processRefField (typeName id : JsVal) (belongsTo : BelongsTo) : BelongsTo :=
  let t := toString typeName in
  let ids := match id with
             | JArr ids => List.map toString ids
             | _ => [toString id]
             end in
  <[t := default ∅ (belongsTo !! t) ∪ list_to_set ids]> belongsTo.

(** The reference branch of [processField]. *)
Definition registerRef (field : JsVal) (belongsTo : BelongsTo) : BelongsTo :=
  if isRefField field then
    match get field "typeName" with
    | JArr typeNames =>
        fold_left (fun bt typeName => processRefField typeName (get field "id") bt)
                  typeNames belongsTo
    | typeName => processRefField typeName (get field "id") belongsTo
    end
  else belongsTo.

(** [createKey] *)
Definition createKey (key : string) : string :=
  prefixLeadingNumber (camelCase (replaceNonValidChars key)).

Definition resolveFilePath (resolveAbsolutePaths : bool) (origin : JsVal) (path : string) : JsVal :=
  app_resolveFilePath origin path resolveAbsolutePaths.

Section Normaliser.

Variable resolveAbsolutePaths : bool.
Variable origin : JsVal.

(** [processField], given [processFields] for the nested call. *)
Definition processField_with
    (processFields : JsVal -> BelongsTo -> Obj * BelongsTo)
    (field : JsVal) (belongsTo : BelongsTo) : JsVal * BelongsTo :=
  match field with
  | JUndefined | JNull => (field, belongsTo)
  | JObj _ | JArr _ =>
      let '(res, bt) := processFields field (registerRef field belongsTo) in
      (JObj res, bt)
  | JStr s =>
      (if isResolvablePath s then resolveFilePath resolveAbsolutePaths origin s else field,
       belongsTo)
  | _ => (field, belongsTo)
  end.

(** One turn of the loop of [processFields]: [res[...] = ...] for [key]. *)
Definition processEntry_with
    (processFields : JsVal -> BelongsTo -> Obj * BelongsTo)
    (key : string) (value : JsVal) (res : Obj) (belongsTo : BelongsTo) : Obj * BelongsTo :=
  if Str.startsWith "__" key then (obj_set res key value, belongsTo)
  else
    match value with
    | JArr items =>
        let '(items', bt) :=
          (fix map_items (l : list JsVal) (bt : BelongsTo) : list JsVal * BelongsTo :=
             match l with
             | [] => ([], bt)
             | x :: r =>
                 let '(x', bt1) := processField_with processFields x bt in
                 let '(r', bt2) := map_items r bt1 in
                 (x' :: r', bt2)
             end) items belongsTo in
        (obj_set res (createKey key) (JArr items'), bt)
    | _ =>
        let '(value', bt) := processField_with processFields value belongsTo in
        (obj_set res (createKey key) value', bt)
    end.

(** [processFields]: the loop over the own properties of [fields]. *)
Fixpoint processFields (fields : JsVal) (belongsTo : BelongsTo) {struct fields}
  : Obj * BelongsTo :=
  match fields with
  | JObj props =>
      (fix each (ps : list (string * JsVal)) (res : Obj) (bt : BelongsTo) :=
         match ps with
         | [] => (res, bt)
         | (key, value) :: ps' =>
             let '(res', bt') := processEntry_with processFields key value res bt in
             each ps' res' bt'
         end) props [] belongsTo
  | JArr items =>
      (fix each (l : list JsVal) (i : nat) (res : Obj) (bt : BelongsTo) :=
         match l with
         | [] => (res, bt)
         | value :: l' =>
             let '(res', bt') :=
               processEntry_with processFields (Str.of_nat i) value res bt in
             each l' (S i) res' bt'
         end) items 0%nat [] belongsTo
  | _ => ([], belongsTo)
  end.

Definition processField : JsVal -> BelongsTo -> JsVal * BelongsTo :=
  processField_with processFields.

Definition processEntry : string -> JsVal -> Obj -> BelongsTo -> Obj * BelongsTo :=
  processEntry_with processFields.

(** The loops of [processFields] and [processEntry] on their own. *)
Fixpoint map_items (l : list JsVal) (bt : BelongsTo) : list JsVal * BelongsTo :=
  match l with
  | [] => ([], bt)
  | x :: r =>
      let '(x', bt1) := processField x bt in
      let '(r', bt2) := map_items r bt1 in
      (x' :: r', bt2)
  end.

Fixpoint each_prop (ps : list (string * JsVal)) (res : Obj) (bt : BelongsTo)
  : Obj * BelongsTo :=
  match ps with
  | [] => (res, bt)
  | (key, value) :: ps' =>
      let '(res', bt') := processEntry key value res bt in
      each_prop ps' res' bt'
  end.

Fixpoint each_item (l : list JsVal) (i : nat) (res : Obj) (bt : BelongsTo)
  : Obj * BelongsTo :=
  match l with
  | [] => (res, bt)
  | value :: l' =>
      let '(res', bt') := processEntry (Str.of_nat i) value res bt in
      each_item l' (S i) res' bt'
  end.

(** The key [processEntry] writes. *)
Definition written_key (key : string) : string :=
  if Str.startsWith "__" key then key else createKey key.

End Normaliser.

(* --------------------------------------------------------------------- *)
(** *** The data of a content type *)
(* --------------------------------------------------------------------- *)

(** [node.internal] *)
Record Internal : Type := {
  origin : JsVal;
  mimeType : JsVal;
  content : JsVal;
  timestamp : JsNum
}.

Record Node : Type := {
  node_id : JsVal;
  node_typeName : string;
  node_internal : Internal;
  node__id : JsVal;
  node_uid : string;
  node_title : JsVal;
  node_date : JsVal;
  node_slug : JsVal;
  node_content : JsVal;
  node_excerpt : JsVal;
  node_withPath : bool;
  node_fields : Obj;
  node_path : string
}.

(** An entry of [baseStore.index]; its [type] is always ['node']. *)
Record IndexEntry : Type := {
  ie_path : string;
  ie_typeName : string;
  ie_uid : string;
  ie_id : JsVal;
  ie_belongsTo : BelongsTo;
  ie__id : JsVal
}.

(** The state the collections share: the node index of the base store and
    the collections of [store.data], by name, each in insertion order. *)
Record Store : Type := {
  index : list IndexEntry;
  collections : gmap string (list Node)
}.

(** A notification or a warning leaving the collection. *)
Inductive Effect : Type :=
| Change (node : option Node) (oldNode : option Node)   (* [emit('change', ...)] *)
| Warn (message : string) (tag : string).               (* [warn(message, tag)] *)

(** [this]: the options of a [ContentTypeCollection]. [mimeTypes] holds
    the keys of [options.mimeTypes]; the value under a key is the registry's
    entry for it. *)
Record ContentTypeCollection : Type := {
  typeName : string;
  refs : Obj;
  schemaFields : Obj;
  mimeTypes : gset string;
  routeKeys : list string;
  options_makePath : Obj -> string;
  resolveAbsolutePaths : bool
}.

Definition internal_props (i : Internal) : Obj :=
  [("origin", origin i); ("mimeType", mimeType i); ("content", content i);
   ("timestamp", JNum (timestamp i))].

(** The properties [createNode] has given the node when it calls
    [makePath]: all but [path]. *)
Definition node_props_before_path (n : Node) : Obj :=
  [("id", node_id n); ("typeName", JStr (node_typeName n));
   ("internal", JObj (internal_props (node_internal n)));
   ("_id", node__id n); ("uid", JStr (node_uid n));
   ("title", node_title n); ("date", node_date n); ("slug", node_slug n);
   ("content", node_content n); ("excerpt", node_excerpt n);
   ("withPath", JBool (node_withPath n)); ("fields", JObj (node_fields n))].

(** The properties of a finished node (the document store's own
    bookkeeping properties apart). *)
Definition node_props (n : Node) : Obj :=
  (node_props_before_path n ++ [("path", JStr (node_path n))])%list.

(* --------------------------------------------------------------------- *)
(** *** [ContentTypeCollection]'s methods without store access *)
(* --------------------------------------------------------------------- *)

Section Collection.

Variable this : ContentTypeCollection.

(** [addReference] *)
Definition addReference (fieldName : string) (options : JsVal) : ContentTypeCollection :=
  {| typeName := typeName this;
     refs := obj_set (refs this) (camelCase fieldName) options;
     schemaFields := schemaFields this;
     mimeTypes := mimeTypes this;
     routeKeys := routeKeys this;
     options_makePath := options_makePath this;
     resolveAbsolutePaths := resolveAbsolutePaths this |}.

(** [addSchemaField] *)
Definition addSchemaField (fieldName : string) (options : JsVal) : ContentTypeCollection :=
  {| typeName := typeName this;
     refs := refs this;
     schemaFields := obj_set (schemaFields this) (camelCase fieldName) options;
     mimeTypes := mimeTypes this;
     routeKeys := routeKeys this;
     options_makePath := options_makePath this;
     resolveAbsolutePaths := resolveAbsolutePaths this |}.

(** [createInternals(options = {})]; [now] is what [Date.now()] returns. *)
Definition createInternals (now : JsNum) (options : JsVal) : Outcome Internal :=
  match options with
  | JNull => Throw TypeError
  | _ =>
      Ok {| origin := get options "origin";
            mimeType := get options "mimeType";
            content := get options "content";
            timestamp := now |}
  end.

(** [makeUid] *)
Definition makeUid (orgId : string) : string := md5_hex orgId.

(** [slugify(string = '')] *)
Definition slugify (str : JsVal) : Outcome string :=
  slugify_pkg (match str with JUndefined => JStr "" | _ => str end).

(** [transform({ mimeType, content })] *)
Definition transform (internal : Internal) : Outcome JsVal :=
  match transformers (toString (mimeType internal)) with
  | None =>
      Throw (Error ("No transformer for " +:+ toString (mimeType internal)
                    +:+ " is installed."))
  | Some parse => parse (content internal)
  end.

(** [if (result[key]) options[key] = result[key]] *)
Definition take (result : JsVal) (key : string) (options : Obj) : Obj :=
  if truthy (get result key) then obj_set options key (get result key) else options.

(** [Object.assign(target, source)] for a plain object [target]; the own
    properties of any other target are carried into a plain object. *)
Definition Object_assign (target source : JsVal) : JsVal :=
  JObj (fold_left (fun acc kv => obj_set acc (fst kv) (snd kv))
                  (own_props source) (own_props target)).

(** [transformNodeOptions]; the options it returns are the caller's
    object after the assignments. *)
Definition transformNodeOptions (options : Obj) (internal : Internal) : Outcome Obj :=
  result ← transform internal;
  match result with
  | JUndefined | JNull => Throw TypeError
  | _ =>
      let options := take result "title" options in
      let options := take result "slug" options in
      let options := take result "path" options in
      let options := take result "date" options in
      let options := take result "content" options in
      let options := take result "excerpt" options in
      Ok (if truthy (get result "fields")
          then obj_set options "fields"
                 (Object_assign (obj_get options "fields" ||| JObj [])
                                (get result "fields"))
          else options)
  end.

(** The step [createNode] and [updateNode] share:
    [if (internal.content && internal.mimeType) this.transformNodeOptions(...)]. *)
Definition transformed (options : Obj) (internal : Internal) : Outcome Obj :=
  if truthy (content internal) && truthy (mimeType internal)
  then transformNodeOptions options internal
  else Ok options.

(** The loop over [this.options.refs] that ends [processNodeFields]. *)
Fixpoint processDeclaredRefs (declared : Obj) (fields : Obj) (belongsTo : BelongsTo)
  : Outcome BelongsTo :=
  match declared with
  | [] => Ok belongsTo
  | (fieldName, options) :: declared' =>
      typeName ← get_checked options "typeName";
      processDeclaredRefs declared' fields
        (processRefField typeName (obj_get fields fieldName) belongsTo)
  end.

(** [processNodeFields(input = {}, origin = '')] *)
Definition processNodeFields (input : JsVal) (origin : JsVal) : Outcome (Obj * BelongsTo) :=
  let input := match input with
               | JUndefined => JObj []
               | JStr s => JArr (chars s)
               | _ => input
               end in
  let origin := match origin with JUndefined => JStr "" | _ => origin end in
  let '(fields, belongsTo) :=
    processFields (resolveAbsolutePaths this) origin input ∅ in
  belongsTo ← processDeclaredRefs (refs this) fields belongsTo;
  Ok (fields, belongsTo).

(** One turn of the loop of [makePath]. *)
Definition routeParam (node : Obj) (keyName : string) (params : Obj) : Outcome Obj :=
  let date := obj_get node "date" in
  let fieldValue :=
    get (obj_get node "fields") keyName ||| obj_get node keyName ||| JStr keyName in
  if String.eqb keyName "year" then
    Ok (obj_set params "year" (JStr (moment_format date "YYYY")))
  else if String.eqb keyName "month" then
    Ok (obj_set params "month" (JStr (moment_format date "MM")))
  else if String.eqb keyName "day" then
    Ok (obj_set params "day" (JStr (moment_format date "DD")))
  else if isObject fieldValue
          && hasOwnProperty fieldValue "typeName"
          && hasOwnProperty fieldValue "id"
          && negb (isArray (get fieldValue "id")) then
    Ok (obj_set params keyName (JStr (toString (get fieldValue "id"))))
  else if negb (isObject fieldValue) && negb (truthy (obj_get params keyName)) then
    slug ← slugify (JStr (toString fieldValue));
    Ok (obj_set (obj_set params keyName (JStr slug))
                (keyName +:+ "_raw") (JStr (toString fieldValue)))
  else Ok params.

Fixpoint routeParams (node : Obj) (keys : list string) (params : Obj) : Outcome Obj :=
  match keys with
  | [] => Ok params
  | keyName :: keys' =>
      params ← routeParam node keyName params;
      routeParams node keys' params
  end.

(** [makePath(node)], on the properties the node has at the call. *)
Definition makePath (node : Obj) : Outcome string :=
  params ← routeParams node (routeKeys this) [];
  Ok (options_makePath this params).

(** The path of a node from [options.path]. *)
Definition explicitPath (path : string) : string :=
  String "/" (stripLeadingSlashes path).

(** [a || b || slugify(title)] *)
Definition slug_or (a b title : JsVal) : Outcome JsVal :=
  if truthy a then Ok a
  else if truthy b then Ok b
  else (s ← slugify title; Ok (JStr s)).

(** [createNode(options = {})]; [now] is what [Date.now()] returns and
    [isoNow] what [new Date().toISOString()] returns. *)
Definition createNode (now : JsNum) (isoNow : string) (options : Obj)
  : Outcome (Node * BelongsTo) :=
  internal ← createInternals now (obj_get options "internal");
  let id := obj_get options "id" ||| obj_get options "_id"
            ||| JStr (makeUid (JSON_stringify options)) in
  options ← transformed options internal;
  '(fields, belongsTo) ← processNodeFields (obj_get options "fields") (origin internal);
  let uid := md5_hex (typeName this +:+ toString id) in
  let title := obj_get options "title" ||| obj_get fields "title" ||| id in
  let date := obj_get options "date" ||| obj_get fields "date" ||| JStr isoNow in
  slug ← slug_or (obj_get options "slug") (obj_get fields "slug") title;
  let content := obj_get options "content" ||| obj_get fields "content" ||| JStr "" in
  let excerpt := obj_get options "excerpt" ||| obj_get fields "excerpt" ||| JStr "" in
  let withPath := match obj_get options "path" with JStr _ => true | _ => false end in
  let node path :=
    {| node_id := id; node_typeName := typeName this; node_internal := internal;
       node__id := id; node_uid := uid; node_title := title; node_date := date;
       node_slug := slug; node_content := content; node_excerpt := excerpt;
       node_withPath := withPath; node_fields := fields; node_path := path |} in
  path ← match obj_get options "path" with
          | JStr path => Ok (explicitPath path)
          | _ => makePath (node_props_before_path (node ""))
          end;
  Ok (node path, belongsTo).

End Collection.

(* --------------------------------------------------------------------- *)
(** *** The document store *)
(* --------------------------------------------------------------------- *)

(** The document store, at its contract: a collection is the list of its
    documents in insertion order; [insert] throws when a stored document
    has the same key under a unique field; an assignment to a stored
    document is seen by every later query. A key is the field's value as a
    property key; a field that is null or undefined is not constrained. *)
Definition key_of (v : JsVal) : option string :=
  match v with
  | JUndefined | JNull => None
  | _ => Some (toString v)
  end.

Definition entry_key (field : string) (e : IndexEntry) : option string :=
  if String.eqb field "path" then Some (ie_path e)
  else if String.eqb field "uid" then Some (ie_uid e)
  else if String.eqb field "typeName" then Some (ie_typeName e)
  else if String.eqb field "id" then key_of (ie_id e)
  else if String.eqb field "_id" then key_of (ie__id e)
  else if String.eqb field "type" then Some "node"
  else None.

Definition node_key (field : string) (n : Node) : option string :=
  key_of (obj_get (node_props n) field).

Definition same_key (a b : option string) : bool :=
  match a, b with
  | Some x, Some y => String.eqb x y
  | _, _ => false
  end.

(** [collection.insert(doc)] on a collection with the given unique fields:
    the first unique field whose key is taken makes the insert throw. *)
Fixpoint insert_unique {D : Type} (key : string -> D -> option string)
    (unique : list string) (docs : list D) (doc : D) : Outcome (list D) :=
  match unique with
  | [] => Ok (docs ++ [doc])%list
  | field :: unique' =>
      if existsb (fun d => same_key (key field d) (key field doc)) docs
      then Throw (UniqueViolation field)
      else insert_unique key unique' docs doc
  end.

(** [baseStore.index.insert(entry)] *)
Definition index_insert (s : Store) (entry : IndexEntry) : Outcome (list IndexEntry) :=
  insert_unique entry_key index_unique (index s) entry.

(** The collection the constructor obtains with
    [store.data.addCollection(typeName, { unique: ['id', 'path'], ... })]:
    the collection of that name, empty when it is new. *)
Definition collection_of (s : Store) (name : string) : list Node :=
  default [] (collections s !! name).

Definition collection_insert (s : Store) (name : string) (node : Node) : Outcome (list Node) :=
  insert_unique node_key ["id"; "path"] (collection_of s name) node.

(** [findOne(query)]: the first document the query matches. *)
Definition findOne {D : Type} (matches : D -> bool) (docs : list D) : option D :=
  List.find matches docs.

(** [findAndRemove(query)] *)
Definition findAndRemove {D : Type} (matches : D -> bool) (docs : list D) : list D :=
  List.filter (fun d => negb (matches d)) docs.

(** A document found by [findOne] is the stored object itself: an
    assignment to it is an update in place of the first match. *)
Fixpoint assign_first {D : Type} (matches : D -> bool) (doc : D) (docs : list D) : list D :=
  match docs with
  | [] => []
  | d :: r => if matches d then doc :: r else d :: assign_first matches doc r
  end.

Definition with_index (s : Store) (idx : list IndexEntry) : Store :=
  {| index := idx; collections := collections s |}.

Definition with_collection (s : Store) (name : string) (nodes : list Node) : Store :=
  {| index := index s; collections := <[name := nodes]> (collections s) |}.

(* --------------------------------------------------------------------- *)
(** *** [ContentTypeCollection]'s methods on the store *)
(* --------------------------------------------------------------------- *)

(** What a method leaves behind: its result, [this], the store and what
    it emitted, in order. *)
Record Step (A : Type) : Type := {
  returned : Outcome A;
  this_after : ContentTypeCollection;
  store_after : Store;
  effects : list Effect
}.

Arguments returned {A} _.
Arguments this_after {A} _.
Arguments store_after {A} _.
Arguments effects {A} _.

Section Methods.

Variable this : ContentTypeCollection.

Definition registerMimeType (mimeType : JsVal) : ContentTypeCollection :=
  if truthy mimeType && negb (bool_decide (toString mimeType ∈ mimeTypes this))
  then {| typeName := typeName this;
          refs := refs this;
          schemaFields := schemaFields this;
          mimeTypes := mimeTypes this ∪ {[toString mimeType]};
          routeKeys := routeKeys this;
          options_makePath := options_makePath this;
          resolveAbsolutePaths := resolveAbsolutePaths this |}
  else this.

Definition entry_of (node : Node) (belongsTo : BelongsTo) : IndexEntry :=
  {| ie_path := node_path node;
     ie_typeName := node_typeName node;
     ie_uid := node_uid node;
     ie_id := node_id node;
     ie_belongsTo := belongsTo;
     ie__id := node_id node |}.

(** [addNode(options)] *)
Definition addNode (s : Store) (now : JsNum) (isoNow : string) (options : Obj)
  : Step (option Node) :=
  match createNode this now isoNow options with
  | Throw e =>
      {| returned := Throw e; this_after := this; store_after := s; effects := [] |}
  | Ok (node, belongsTo) =>
      let this1 := registerMimeType (mimeType (node_internal node)) in
      match index_insert s (entry_of node belongsTo) with
      | Throw _ =>
          {| returned := Ok None; this_after := this1; store_after := s;
             effects := [Warn ("Skipping duplicate path for " +:+ node_path node)
                              (typeName this)] |}
      | Ok idx =>
          let s1 := with_index s idx in
          match collection_insert s1 (typeName this) node with
          | Throw e =>
              {| returned := Throw e; this_after := this1; store_after := s1;
                 effects := [] |}
          | Ok nodes =>
              {| returned := Ok (Some node); this_after := this1;
                 store_after := with_collection s1 (typeName this) nodes;
                 effects := [Change (Some node) None] |}
          end
      end
  end.

(** [getNode(id)] *)
Definition getNode (s : Store) (id : JsVal) : option Node :=
  findOne (fun n => strict_eq (node_id n) id) (collection_of s (typeName this)).

(** [removeNode(id)] *)
Definition removeNode (s : Store) (id : JsVal) : Step unit :=
  match getNode s id with
  | None =>
      {| returned := Throw TypeError; this_after := this; store_after := s;
         effects := [] |}
  | Some node =>
      let idx := findAndRemove (fun e => String.eqb (ie_uid e) (node_uid node)) (index s) in
      let nodes := findAndRemove (fun n => strict_eq (node_id n) id)
                     (collection_of s (typeName this)) in
      {| returned := Ok tt; this_after := this;
         store_after := with_collection (with_index s idx) (typeName this) nodes;
         effects := [Change None (Some node)] |}
  end.

(** The assignments of [updateNode] to the stored node, in order. *)
Definition assign_internal (n : Node) (internal : Internal) : Node :=
  {| node_id := node_id n; node_typeName := node_typeName n;
     node_internal := internal;
     node__id := node__id n; node_uid := node_uid n; node_title := node_title n;
     node_date := node_date n; node_slug := node_slug n;
     node_content := node_content n; node_excerpt := node_excerpt n;
     node_withPath := node_withPath n; node_fields := node_fields n;
     node_path := node_path n |}.

Definition assign_title_date (n : Node) (title date : JsVal) : Node :=
  {| node_id := node_id n; node_typeName := node_typeName n;
     node_internal := node_internal n;
     node__id := node__id n; node_uid := node_uid n; node_title := title;
     node_date := date; node_slug := node_slug n;
     node_content := node_content n; node_excerpt := node_excerpt n;
     node_withPath := node_withPath n; node_fields := node_fields n;
     node_path := node_path n |}.

Definition assign_slug_content_excerpt (n : Node) (slug content excerpt : JsVal) : Node :=
  {| node_id := node_id n; node_typeName := node_typeName n;
     node_internal := node_internal n;
     node__id := node__id n; node_uid := node_uid n; node_title := node_title n;
     node_date := node_date n; node_slug := slug;
     node_content := content; node_excerpt := excerpt;
     node_withPath := node_withPath n; node_fields := node_fields n;
     node_path := node_path n |}.

Definition assign_path_fields (n : Node) (path : string) (fields : Obj) : Node :=
  {| node_id := node_id n; node_typeName := node_typeName n;
     node_internal := node_internal n;
     node__id := node__id n; node_uid := node_uid n; node_title := node_title n;
     node_date := node_date n; node_slug := node_slug n;
     node_content := node_content n; node_excerpt := node_excerpt n;
     node_withPath := node_withPath n; node_fields := fields;
     node_path := path |}.

Definition assign_entry (e : IndexEntry) (path : string) (belongsTo : BelongsTo) : IndexEntry :=
  {| ie_path := path; ie_typeName := ie_typeName e; ie_uid := ie_uid e;
     ie_id := ie_id e; ie_belongsTo := belongsTo; ie__id := ie__id e |}.

(** The store once the node [getNode(id)] found holds [node]. *)
Definition store_node (s : Store) (id : JsVal) (node : Node) : Store :=
  with_collection s (typeName this)
    (assign_first (fun n => strict_eq (node_id n) id) node
                  (collection_of s (typeName this))).

Definition thrown {A : Type} (e : JsError) (s : Store) : Step A :=
  {| returned := Throw e; this_after := this; store_after := s; effects := [] |}.

(** [updateNode(id, options)]; [now1] and [now2] are what the two calls of
    [Date.now()] return. An error leaves the assignments made before it. *)
Definition updateNode (s : Store) (now1 now2 : JsNum) (id : JsVal) (options : Obj)
  : Step Node :=
  match getNode s id with
  | None => thrown TypeError s
  | Some node =>
  let indexEntry := findOne (fun e => String.eqb (ie_uid e) (node_uid node)) (index s) in
  match createInternals now1 (obj_get options "internal"),
        createInternals now2 (obj_get options "internal") with
  | Throw e, _ | _, Throw e => thrown e s
  | Ok internal, Ok internal2 =>
  let node1 := assign_internal node internal2 in
  match (options ← transformed options internal;
         fb ← processNodeFields this (obj_get options "fields")
                (origin (node_internal node1));
         Ok (options, fb)) with
  | Throw e => thrown e (store_node s id node1)
  | Ok (options, (fields, belongsTo)) =>
  let title := obj_get options "title" ||| obj_get fields "title" ||| node_title node1 in
  let date := obj_get options "date" ||| obj_get fields "date" ||| node_date node1 in
  let node2 := assign_title_date node1 title date in
  match slug_or (obj_get options "slug") (obj_get fields "slug") title with
  | Throw e => thrown e (store_node s id node2)
  | Ok slug =>
  let content :=
    obj_get options "content" ||| obj_get fields "content" ||| node_content node2 in
  let excerpt :=
    obj_get options "excerpt" ||| obj_get fields "excerpt" ||| node_excerpt node2 in
  let node3 :=
    assign_internal (assign_slug_content_excerpt node2 slug content excerpt) internal in
  match (match obj_get options "path" with
         | JStr path => Ok (explicitPath path)
         | _ => makePath this (node_props node3)
         end) with
  | Throw e => thrown e (store_node s id node3)
  | Ok path =>
  let node4 := assign_path_fields node3 path fields in
  let s4 := store_node s id node4 in
  match indexEntry with
  | None => thrown TypeError s4
  | Some entry =>
      {| returned := Ok node4; this_after := this;
         store_after :=
           with_index s4
             (assign_first (fun e => String.eqb (ie_uid e) (node_uid node))
                           (assign_entry entry path belongsTo) (index s));
         effects := [Change (Some node4) (Some node)] |}
  end end end end end end.

End Methods.

(* --------------------------------------------------------------------- *)
(** *** Type inference: [inferTypes], [inferType] *)
(* --------------------------------------------------------------------- *)

(** [(x | 0) === x] *)
Definition toInt32 (z : Z) : Z := (z + 2 ^ 31) mod 2 ^ 32 - 2 ^ 31.

Definition is32BitInt (x : JsNum) : bool :=
  match x with
  | NInt z => toInt32 z =? z
  | _ => false
  end.

(** [createTypeName] *)
Definition createTypeName (nodeType key : string) : string :=
  pascalCase (nodeType +:+ " " +:+ key).

(** [createObjectType], given [inferType] for the nested values;
    [mapValues] keeps the keys and infers each value under the new type's
    name. *)
Definition createObjectType_with
    (inferType : JsVal -> string -> string -> option FieldConfig)
    (obj : list (string * JsVal)) (key nodeType : string) : FieldConfig :=
  let name := createTypeName nodeType key in
  let fields := List.map (fun kv => (fst kv, inferType (snd kv) (fst kv) name)) obj in
  mkFieldConfig (GraphQLObjectType name fields) None.

(** [inferType]. The first element of an empty array is [undefined], for
    which the first line answers [null]. *)
Fixpoint inferType (value : JsVal) (key nodeType : string) {struct value}
  : option FieldConfig :=
  if negb (truthy value) then None
  else
    match value with
    | JArr items =>
        let type := match items with
                    | [] => None
                    | first :: _ => inferType first key nodeType
                    end in
        match type with
        | Some type => Some (mkFieldConfig (GraphQLList (fc_type type)) (Some ResolveList))
        | None => None
        end
    | _ =>
        if isDate value then Some dateType
        else
          match value with
          | JStr _ => Some (mkFieldConfig GraphQLString None)
          | JBool _ => Some (mkFieldConfig GraphQLBoolean None)
          | JNum n =>
              Some (mkFieldConfig (if is32BitInt n then GraphQLInt else GraphQLFloat) None)
          | JObj obj => Some (createObjectType_with inferType obj key nodeType)
          | _ => None
          end
    end.

Definition createObjectType : list (string * JsVal) -> string -> string -> FieldConfig :=
  createObjectType_with inferType.

(** [fields[key] = type] on the map [inferTypes] builds. *)
Fixpoint fields_set (fields : list (string * FieldConfig)) (key : string) (type : FieldConfig)
  : list (string * FieldConfig) :=
  match fields with
  | [] => [(key, type)]
  | (k, t) :: r =>
      if String.eqb k key then (k, type) :: r else (k, t) :: fields_set r key type
  end.

(** The inner loop of [inferTypes], over the fields of one node. *)
Fixpoint inferNodeFields (nodeFields : Obj) (nodeType : string)
    (fields : list (string * FieldConfig)) : list (string * FieldConfig) :=
  match nodeFields with
  | [] => fields
  | (key, value) :: rest =>
      inferNodeFields rest nodeType
        (match inferType value key nodeType with
         | Some type => fields_set fields key type
         | None => fields
         end)
  end.

(** [inferTypes(nodes, nodeType)] *)
Definition inferTypes (nodes : list Node) (nodeType : string) : list (string * FieldConfig) :=
  fold_left (fun fields node => inferNodeFields (node_fields node) nodeType fields)
            nodes [].

(* --------------------------------------------------------------------- *)
(** *** Predicates of the specification *)
(* --------------------------------------------------------------------- *)

(** The grammar [^_?[a-zA-Z][a-zA-Z0-9]*$]. *)
Definition is_alnum (c : ascii) : bool := Str.is_letter c || Str.is_digit c.

Definition letter_then_alnum (s : string) : bool :=
  match s with
  | String c r => Str.is_letter c && Str.forallb is_alnum r
  | EmptyString => false
  end.

Definition identifier_grammar (s : string) : bool :=
  match s with
  | String c r => if Str.is_underscore c then letter_then_alnum r else letter_then_alnum s
  | EmptyString => false
  end.

Definition starts_with_digit (s : string) : bool :=
  match s with
  | String c _ => Str.is_digit c
  | EmptyString => false
  end.

(** What [createKey] needs of the camelcase package: a string over
    [[a-zA-Z0-9_]] stays one, and the result never starts with ["__"]. *)
Definition camelCase_keeps_identifiers : Prop :=
  forall s, Str.forallb Str.is_word s = true ->
            Str.forallb Str.is_word (camelCase s) = true
            /\ Str.startsWith "__" (camelCase s) = false.

(** [belongsTo[typeName][id] = true] *)
Definition recorded (belongsTo : BelongsTo) (typeName id : string) : Prop :=
  exists ids, belongsTo !! typeName = Some ids /\ id ∈ ids.

(** The type names and the identifiers a reference names. *)
Definition as_list (v : JsVal) : list JsVal :=
  match v with
  | JArr items => items
  | _ => [v]
  end.




(** A step of the normaliser that keeps every reference recorded so far. *)
Definition monotone (f : BelongsTo -> BelongsTo) : Prop :=
  forall bt a b, recorded bt a b -> recorded (f bt) a b.

Definition keeps_records (ra : bool) (origin : JsVal) (v : JsVal) : Prop :=
  monotone (fun bt => snd (processFields ra origin v bt)).

Definition keeps_records_deep (ra : bool) (origin : JsVal) (v : JsVal) : Prop :=
  keeps_records ra origin v
  /\ match v with
     | JArr items => Forall (keeps_records ra origin) items
     | _ => True
     end.







(** Two versions of a node with the same identity. *)
Definition same_identity (n n' : Node) : Prop :=
  node_id n' = node_id n /\ node__id n' = node__id n
  /\ node_uid n' = node_uid n /\ node_typeName n' = node_typeName n.

(** Two versions of an index entry that differ at most in [path] and
    [belongsTo]. *)
Definition same_entry_identity (e e' : IndexEntry) : Prop :=
  ie_typeName e' = ie_typeName e /\ ie_uid e' = ie_uid e
  /\ ie_id e' = ie_id e /\ ie__id e' = ie__id e.

(* --------------------------------------------------------------------- *)
(** *** Further notions used by the properties *)
(* --------------------------------------------------------------------- *)

(** [fields[key]] on the map [inferTypes] returns. *)
Fixpoint fields_get (fields : list (string * FieldConfig)) (key : string)
  : option FieldConfig :=
  match fields with
  | [] => None
  | (k, t) :: r => if String.eqb k key then Some t else fields_get r key
  end.

(** A value is falsy, or an array whose first element, if any, is such a
    value again. *)
Fixpoint leads_to_falsy (v : JsVal) : bool :=
  match v with
  | JArr items =>
      match items with
      | [] => true
      | first :: _ => leads_to_falsy first
      end
  | _ => negb (truthy v)
  end.

(** The date part a route key stands for: [makePath] formats the date of
    the node for the keys [year], [month] and [day]. *)
Definition date_part (node : Obj) (key : string) : option string :=
  if String.eqb key "year" then Some (moment_format (obj_get node "date") "YYYY")
  else if String.eqb key "month" then Some (moment_format (obj_get node "date") "MM")
  else if String.eqb key "day" then Some (moment_format (obj_get node "date") "DD")
  else None.

(** A type map without a key twice, each of whose types is inferred from a
    field of that name of one of the nodes. *)
Definition inferred_from (nodes : list Node) (nodeType : string)
    (fields : list (string * FieldConfig)) : Prop :=
  List.NoDup (List.map fst fields)
  /\ forall key type, In (key, type) fields ->
       exists node value, In node nodes /\ In (key, value) (node_fields node)
                          /\ inferType value key nodeType = Some type.

(** Two collections that [createNode] cannot tell apart. *)
Definition same_for_createNode (this this' : ContentTypeCollection) : Prop :=
  typeName this' = typeName this /\ refs this' = refs this
  /\ routeKeys this' = routeKeys this
  /\ options_makePath this' = options_makePath this
  /\ resolveAbsolutePaths this' = resolveAbsolutePaths this.

(** The node as [updateNode] hands it to [makePath]: its new display
    values, with the path and the fields it had before the update. *)
Definition before_path_update (node' old : Node) : Node :=
  assign_path_fields node' (node_path old) (node_fields old).

End Model.

Arguments returned {A} _.
Arguments this_after {A} _.
Arguments store_after {A} _.
Arguments effects {A} _.

(** A content type routed at [/:year/:slug], and the store before any
    node is added. *)
Module SampleStore.

Definition route (params : Obj) : string :=
  "/" +:+ match obj_get params "year" with JStr y => y | _ => "" end
  +:+ "/" +:+ match obj_get params "slug" with JStr y => y | _ => "" end.

Definition posts : ContentTypeCollection :=
  {| typeName := "Post"; refs := []; schemaFields := []; mimeTypes := ∅;
     routeKeys := ["year"; "slug"]; options_makePath := route;
     resolveAbsolutePaths := false |}.

Definition empty : Store := {| index := []; collections := ∅ |}.

Definition now : JsNum := NInt 1546300800000.
Definition isoNow : string := "2019-01-01T00:00:00.000Z".

(** The environment whose index is unique on [uid] and [path], and the one
    whose index is unique on [path] alone. *)
Definition env : Externals := Sample.env ["uid"; "path"].

Definition no_internal : Internal :=
  {| origin := JUndefined; mimeType := JUndefined; content := JUndefined;
     timestamp := now |}.

(** A node with a supplied path, and the options it comes from. *)
Definition intro_options : Obj :=
  [("id", JStr "intro"); ("title", JStr "Introduction");
   ("path", JStr "//docs//intro")].

Definition intro_node : Node :=
  {| node_id := JStr "intro"; node_typeName := "Post"; node_internal := no_internal;
     node__id := JStr "intro"; node_uid := "md5:Postintro";
     node_title := JStr "Introduction"; node_date := JStr isoNow;
     node_slug := JStr "introduction"; node_content := JStr "";
     node_excerpt := JStr ""; node_withPath := true; node_fields := [];
     node_path := "/docs//intro" |}.

(** Options with raw content for the registered transformer, and for a
    mime type that has none. *)
Definition markdown_internal : Internal :=
  {| origin := JUndefined; mimeType := JStr "text/markdown";
     content := JStr "# Hi"; timestamp := now |}.

Definition markdown_options : Obj :=
  [("id", JStr "post-1"); ("title", JStr "Mine");
   ("fields", JObj [("category", JStr "mine"); ("author", JStr "me")]);
   ("internal", JObj [("mimeType", JStr "text/markdown"); ("content", JStr "# Hi")])].

Definition rst_options : Obj :=
  [("id", JStr "post-2");
   ("internal", JObj [("mimeType", JStr "text/x-rst"); ("content", JStr "Hi")])].

Definition rst_options_without_content : Obj :=
  [("id", JStr "post-2"); ("internal", JObj [("mimeType", JStr "text/x-rst")])].

(** Three nodes: two with the identifier ["1"], two with the path
    ["/b"]; and a node whose supplied path resolves to ["/a"] again. *)
Definition a_options : Obj := [("id", JStr "1"); ("path", JStr "/a")].

Definition plain_node (id path : string) : Node :=
  {| node_id := JStr id; node_typeName := "Post"; node_internal := no_internal;
     node__id := JStr id; node_uid := "md5:Post" +:+ id;
     node_title := JStr id; node_date := JStr isoNow;
     node_slug := JStr id; node_content := JStr "";
     node_excerpt := JStr ""; node_withPath := true; node_fields := [];
     node_path := path |}.



(** A node with a slug of its own, the options it comes from, and a
    later time. *)
Definition hello_options : Obj :=
  [("id", JStr "1"); ("title", JStr "Hello World"); ("slug", JStr "custom");
   ("path", JStr "/hello")].

Definition hello_node : Node :=
  {| node_id := JStr "1"; node_typeName := "Post"; node_internal := no_internal;
     node__id := JStr "1"; node_uid := "md5:Post1";
     node_title := JStr "Hello World"; node_date := JStr isoNow;
     node_slug := JStr "custom"; node_content := JStr "";
     node_excerpt := JStr ""; node_withPath := true; node_fields := [];
     node_path := "/hello" |}.

Definition later : JsNum := NInt 1546300860000.





(** Fields with a key kept for internal use. *)
Definition meta_options : Obj :=
  [("id", JStr "a"); ("fields", JObj [("__meta", JStr "draft"); ("title", JStr "A")])].

Definition meta_node : Node :=
  {| node_id := JStr "a"; node_typeName := "Post"; node_internal := no_internal;
     node__id := JStr "a"; node_uid := "md5:Posta";
     node_title := JStr "A"; node_date := JStr isoNow;
     node_slug := JStr "a"; node_content := JStr "";
     node_excerpt := JStr ""; node_withPath := false;
     node_fields := [("__meta", JStr "draft"); ("title", JStr "A")];
     node_path := "/2019/a" |}.

(** A node whose path comes from its [slug] field, the options of an
    update that changes the field, and the node the update returns. *)
Definition slugged_options : Obj :=
  [("id", JStr "s"); ("fields", JObj [("slug", JStr "old")])].

Definition slugged_node : Node :=
  {| node_id := JStr "s"; node_typeName := "Post"; node_internal := no_internal;
     node__id := JStr "s"; node_uid := "md5:Posts";
     node_title := JStr "s"; node_date := JStr isoNow;
     node_slug := JStr "old"; node_content := JStr "";
     node_excerpt := JStr ""; node_withPath := false;
     node_fields := [("slug", JStr "old")];
     node_path := "/2019/old" |}.

Definition reslugged_options : Obj := [("fields", JObj [("slug", JStr "new")])].

Definition reslugged_node : Node :=
  {| node_id := JStr "s"; node_typeName := "Post";
     node_internal := {| origin := JUndefined; mimeType := JUndefined;
                         content := JUndefined; timestamp := later |};
     node__id := JStr "s"; node_uid := "md5:Posts";
     node_title := JStr "s"; node_date := JStr isoNow;
     node_slug := JStr "new"; node_content := JStr "";
     node_excerpt := JStr ""; node_withPath := false;
     node_fields := [("slug", JStr "new")];
     node_path := "/2019/old" |}.

(** The content type with a declared reference to authors, and with a
    reference declared without options. *)
Definition author_options : JsVal := JObj [("typeName", JStr "Author")].

Definition authored : ContentTypeCollection :=
  addReference (E := env) posts "author" author_options.

Definition unready : ContentTypeCollection :=
  addReference (E := env) posts "author" JUndefined.

(** An environment with a second transformer, whose parse throws. *)
Definition broken (content : JsVal) : Outcome JsVal := Throw (Raised "parse").

Definition transformers_with_broken (mimeType : string)
  : option (JsVal -> Outcome JsVal) :=
  if String.eqb mimeType "text/broken" then Some broken
  else Sample.transformers mimeType.

Definition env_broken : Externals :=
  Build_Externals Sample.camelCase Sample.pascalCase Sample.slugify Sample.digest
    (fun o => Sample.json (JObj o)) Sample.number Sample.isResolvablePath
    Sample.resolveFilePath transformers_with_broken Sample.format Sample.isDate
    Sample.dateType ["uid"; "path"].

Definition broken_options : Obj :=
  [("id", JStr "post-3");
   ("internal", JObj [("mimeType", JStr "text/broken"); ("content", JStr "Hi")])].

(** Fields naming two authors under the declared reference. *)
Definition two_authors : JsVal := JObj [("author", JArr [JStr "42"; JNum (NInt 7)])].

(** Nodes whose [title] field is a number, and the empty string. *)
Definition numbered_node : Node :=
  assign_path_fields (plain_node "1" "/a") "/a" [("title", JNum (NInt 5))].

Definition untitled_node : Node :=
  assign_path_fields (plain_node "2" "/b") "/b" [("title", JStr "")].

(** An object with an object inside. *)
Definition address : list (string * JsVal) :=
  [("city", JStr "Oslo"); ("geo", JObj [("lat", JNum (NInt 59))])].

(** Fields whose keys are sanitised, with a list inside a list. *)
Definition raw_fields : list (string * JsVal) :=
  [("my-title", JStr "x"); ("tags", JArr [JArr [JStr "a"; JStr "b"]])].

End SampleStore.

(* ===================================================================== *)
(** * Properties *)
(* ===================================================================== *)

Section Properties.

Context `{E : Externals}.

(** ** Outcomes and objects *)

Lemma bind_Ok {A B} (m : Outcome A) (f : A -> Outcome B) (b : B) :
  m ≫= f = Ok b -> exists a, m = Ok a /\ f a = Ok b.
Proof. destruct m as [a|e]; simpl; [eauto | discriminate]. Qed.

Lemma bind_Throw {A B} (m : Outcome A) (f : A -> Outcome B) (e : JsError) :
  m ≫= f = Throw e -> m = Throw e \/ exists a, m = Ok a /\ f a = Throw e.
Proof. destruct m as [a|e']; simpl; [eauto | intros [= ->]; auto]. Qed.

Ltac inv_bind H :=
  let a := fresh "a" in
  let Ha := fresh "Ha" in
  apply bind_Ok in H; destruct H as (a & Ha & H).

Lemma obj_get_set_eq (o : Obj) (k : string) (v : JsVal) :
  obj_get (obj_set o k v) k = v.
Proof.
  induction o as [|[k' v'] r IH]; simpl.
  - now rewrite String.eqb_refl.
  - destruct (String.eqb k' k) eqn:Hk; simpl; rewrite Hk; auto.
Qed.

Lemma obj_get_set_ne (o : Obj) (k k' : string) (v : JsVal) :
  k <> k' -> obj_get (obj_set o k v) k' = obj_get o k'.
Proof.
  intros Hne. induction o as [|[k0 v0] r IH]; simpl.
  - apply String.eqb_neq in Hne. now rewrite Hne.
  - destruct (String.eqb k0 k) eqn:Hk; simpl.
    + apply String.eqb_eq in Hk. subst k0.
      apply String.eqb_neq in Hne. now rewrite Hne.
    + destruct (String.eqb k0 k'); auto.
Qed.

Lemma obj_get_set (o : Obj) (k k' : string) (v : JsVal) :
  obj_get (obj_set o k v) k' = if String.eqb k k' then v else obj_get o k'.
Proof.
  destruct (String.eqb k k') eqn:Hk.
  - apply String.eqb_eq in Hk. subst. apply obj_get_set_eq.
  - apply String.eqb_neq in Hk. now apply obj_get_set_ne.
Qed.

(** ** Type inference *)

Lemma inferType_array (items : list JsVal) (key nodeType : string) :
  inferType (JArr items) key nodeType =
  match inferType (nth 0 items JUndefined) key nodeType with
  | Some type => Some (mkFieldConfig (GraphQLList (fc_type type)) (Some ResolveList))
  | None => None
  end.
Proof. destruct items as [|first rest]; reflexivity. Qed.

Lemma inferType_falsy (value : JsVal) (key nodeType : string) :
  truthy value = false -> inferType value key nodeType = None.
Proof. intros H. destruct value; simpl in *; rewrite ?H; try reflexivity; discriminate. Qed.

(** C8. Type inference answers no type for a falsy value (0, the empty
    string, false, null, undefined, NaN); the type of a list is the list of
    the type inferred from its first element alone, and none when that
    element has none, as for the empty list; fields [count: 0] and
    [tags: []] add nothing to the type map. *)
Theorem inferType_falsy_and_lists :
  (forall value key nodeType,
      truthy value = false -> inferType value key nodeType = None)
  /\ (forall key nodeType,
         inferType (JNum (NInt 0)) key nodeType = None
         /\ inferType (JStr "") key nodeType = None
         /\ inferType (JBool false) key nodeType = None
         /\ inferType JNull key nodeType = None
         /\ inferType JUndefined key nodeType = None)
  /\ (forall first rest key nodeType,
         inferType (JArr (first :: rest)) key nodeType =
         match inferType first key nodeType with
         | Some type =>
             Some (mkFieldConfig (GraphQLList (fc_type type)) (Some ResolveList))
         | None => None
         end)
  /\ (forall key nodeType, inferType (JArr []) key nodeType = None)
  /\ (forall node nodeType,
         node_fields node = [("count", JNum (NInt 0)); ("tags", JArr [])] ->
         inferTypes [node] nodeType = []).
Proof.
  split; [exact inferType_falsy|].
  split; [intros; repeat split; reflexivity|].
  split; [intros; apply (inferType_array (first :: rest))|].
  split; [reflexivity|].
  intros node nodeType Hf. unfold inferTypes. simpl. rewrite Hf. reflexivity.
Qed.

Lemma fields_set_keeps (fields : list (string * FieldConfig)) (key key' : string)
    (type : FieldConfig) :
  In key (List.map fst fields) -> In key (List.map fst (fields_set fields key' type)).
Proof.
  induction fields as [|[k t] r IH]; simpl; [tauto|].
  destruct (String.eqb k key'); simpl; tauto.
Qed.

Lemma fields_set_adds (fields : list (string * FieldConfig)) (key : string)
    (type : FieldConfig) :
  In key (List.map fst (fields_set fields key type)).
Proof.
  induction fields as [|[k t] r IH]; simpl; [auto|].
  destruct (String.eqb k key) eqn:Hk; simpl; [|auto].
  apply String.eqb_eq in Hk. auto.
Qed.

Lemma inferNodeFields_keeps (nodeFields : Obj) (nodeType : string)
    (fields : list (string * FieldConfig)) (key : string) :
  In key (List.map fst fields) ->
  In key (List.map fst (inferNodeFields nodeFields nodeType fields)).
Proof.
  revert fields. induction nodeFields as [|[k v] r IH]; intros fields H; simpl;
    [assumption|].
  apply IH. destruct (inferType v k nodeType); [now apply fields_set_keeps | assumption].
Qed.

Lemma inferNodeFields_adds (nodeFields : Obj) (nodeType : string)
    (fields : list (string * FieldConfig)) (key : string) (value : JsVal)
    (type : FieldConfig) :
  In (key, value) nodeFields -> inferType value key nodeType = Some type ->
  In key (List.map fst (inferNodeFields nodeFields nodeType fields)).
Proof.
  revert fields. induction nodeFields as [|[k v] r IH]; intros fields Hin Ht; simpl;
    [contradiction|].
  destruct Hin as [[= -> ->]|Hin]; [|now apply IH].
  rewrite Ht. apply inferNodeFields_keeps, fields_set_adds.
Qed.

Lemma inferTypes_has_key (nodes : list Node) (nodeType : string) (node : Node)
    (key : string) (value : JsVal) (type : FieldConfig) :
  In node nodes -> In (key, value) (node_fields node) ->
  inferType value key nodeType = Some type ->
  In key (List.map fst (inferTypes nodes nodeType)).
Proof.
  unfold inferTypes. generalize (@nil (string * FieldConfig)).
  induction nodes as [|n r IH]; intros fields Hnode Hin Ht; simpl; [contradiction|].
  destruct Hnode as [->|Hnode]; [|now apply IH].
  assert (Hkey : In key (List.map fst (inferNodeFields (node_fields node) nodeType fields)))
    by (eapply inferNodeFields_adds; eassumption).
  clear - Hkey. revert Hkey.
  generalize (inferNodeFields (node_fields node) nodeType fields).
  induction r as [|n r IH]; intros acc Hkey; simpl; [assumption|].
  apply IH. now apply inferNodeFields_keeps.
Qed.

(** ** The store *)

Lemma Forall2_refl {A} (R : A -> A -> Prop) (l : list A) :
  (forall x, R x x) -> Forall2 R l l.
Proof. intros HR. induction l; constructor; auto. Qed.

Lemma assign_first_Forall2 {D} (R : D -> D -> Prop) (matches : D -> bool)
    (doc d : D) (docs : list D) :
  (forall x, R x x) ->
  findOne matches docs = Some d -> R d doc ->
  Forall2 R docs (assign_first matches doc docs).
Proof.
  intros HR Hfind Hd. unfold findOne in Hfind.
  induction docs as [|x r IH]; simpl in *; [discriminate|].
  destruct (matches x).
  - injection Hfind as ->. constructor; [assumption | now apply Forall2_refl].
  - constructor; auto.
Qed.

Lemma collection_of_with_collection (s : Store) (name name' : string) (nodes : list Node) :
  collection_of (with_collection s name nodes) name' =
  if decide (name = name') then nodes else collection_of s name'.
Proof.
  unfold collection_of, with_collection. simpl.
  destruct (decide (name = name')) as [->|Hne].
  - now rewrite lookup_insert_eq.
  - now rewrite lookup_insert_ne.
Qed.

Lemma same_identity_refl (n : Node) : same_identity n n.
Proof. repeat split. Qed.

Lemma same_entry_identity_refl (e : IndexEntry) : same_entry_identity e e.
Proof. repeat split. Qed.

Lemma store_node_frame (this : ContentTypeCollection) (s : Store) (id : JsVal)
    (node node' : Node) :
  getNode this s id = Some node -> same_identity node node' ->
  (forall name,
      Forall2 same_identity (collection_of s name)
              (collection_of (store_node this s id node') name))
  /\ (forall name, name <> typeName this ->
         collection_of (store_node this s id node') name = collection_of s name)
  /\ index (store_node this s id node') = index s.
Proof.
  intros Hget Hsame. unfold store_node. repeat split.
  - intros name. rewrite collection_of_with_collection.
    destruct (decide (typeName this = name)) as [<-|Hne].
    + eapply assign_first_Forall2; eauto using same_identity_refl.
    + apply Forall2_refl, same_identity_refl.
  - intros name Hne. rewrite collection_of_with_collection.
    destruct (decide (typeName this = name)); congruence.
Qed.

(** C10. [updateNode] leaves the identity of every stored node ([id],
    [_id], [uid], [typeName]) and of every index entry as it was, whether
    it returns or throws; collections of other types are untouched; the
    node it returns is the stored node with the same identity. *)
Theorem updateNode_identity_frame (this : ContentTypeCollection) (s : Store)
    (now1 now2 : JsNum) (id : JsVal) (options : Obj) :
  let r := updateNode this s now1 now2 id options in
  (forall name,
      Forall2 same_identity (collection_of s name)
              (collection_of (store_after r) name))
  /\ (forall name, name <> typeName this ->
         collection_of (store_after r) name = collection_of s name)
  /\ Forall2 same_entry_identity (index s) (index (store_after r))
  /\ (forall node, returned r = Ok node ->
         exists old, getNode this s id = Some old /\ same_identity old node).
Proof.
  assert (Hrefl : (forall name, Forall2 same_identity (collection_of s name)
                                        (collection_of s name))
                  /\ (forall name, name <> typeName this ->
                         collection_of s name = collection_of s name)
                  /\ Forall2 same_entry_identity (index s) (index s)).
  { repeat split; intros;
      auto using Forall2_refl, same_identity_refl, same_entry_identity_refl. }
  assert (Hstored : forall node node',
             getNode this s id = Some node -> same_identity node node' ->
             (forall name, Forall2 same_identity (collection_of s name)
                                   (collection_of (store_node this s id node') name))
             /\ (forall name, name <> typeName this ->
                    collection_of (store_node this s id node') name = collection_of s name)
             /\ Forall2 same_entry_identity (index s)
                        (index (store_node this s id node'))).
  { intros node node' Hget Hsame.
    destruct (store_node_frame this s id node node' Hget Hsame) as (H1 & H2 & H3).
    repeat split; auto. rewrite H3.
    apply Forall2_refl, same_entry_identity_refl. }
  unfold updateNode. cbv zeta.
  destruct (getNode this s id) as [node|] eqn:Hget; simpl.
  2: { destruct Hrefl as (H1 & H2 & H3). repeat split; auto. discriminate. }
  destruct (createInternals now1 (obj_get options "internal")) as [internal|e1];
    destruct (createInternals now2 (obj_get options "internal")) as [internal2|e2];
    simpl;
    try (destruct Hrefl as (H1 & H2 & H3); repeat split; auto; discriminate).
  match goal with
  | |- context [match ?m with Ok _ => _ | Throw _ => _ end] =>
      destruct m as [[options' [fields belongsTo]]|e]
  end; simpl.
  2: { destruct (Hstored node (assign_internal node internal2) eq_refl) as (H1 & H2 & H3);
         [repeat split|]. repeat split; auto. discriminate. }
  match goal with
  | |- context [match slug_or ?a ?b ?c with Ok _ => _ | Throw _ => _ end] =>
      destruct (slug_or a b c) as [slug|e]
  end; simpl.
  2: { match goal with
       | |- context [store_node this s id ?n] =>
           destruct (Hstored node n eq_refl) as (H1 & H2 & H3); [repeat split|]
       end. repeat split; auto. discriminate. }
  match goal with
  | |- context [match ?m with Ok _ => _ | Throw _ => _ end] =>
      destruct m as [path|e]
  end; simpl.
  2: { match goal with
       | |- context [store_node this s id ?n] =>
           destruct (Hstored node n eq_refl) as (H1 & H2 & H3); [repeat split|]
       end. repeat split; auto. discriminate. }
  match goal with
  | |- context [store_node this s id ?n] =>
      destruct (Hstored node n eq_refl) as (H1 & H2 & H3); [repeat split|]
  end.
  destruct (findOne _ (index s)) as [entry|] eqn:Hentry; simpl.
  2: { repeat split; auto. discriminate. }
  repeat split; auto.
  - eapply assign_first_Forall2; eauto using same_entry_identity_refl.
    repeat split.
  - intros n [= <-]. exists node. split; [reflexivity | repeat split].
Qed.

(** ** Adding nodes: the unique path *)

Lemma insert_unique_Ok {D} (key : string -> D -> option string) unique docs doc docs' :
  insert_unique key unique docs doc = Ok docs' ->
  docs' = (docs ++ [doc])%list
  /\ forall field, In field unique ->
       existsb (fun d => same_key (key field d) (key field doc)) docs = false.
Proof.
  induction unique as [|f r IH]; simpl; intros H.
  - injection H as <-. split; [reflexivity | contradiction].
  - destruct (existsb _ docs) eqn:Hex; [discriminate|].
    destruct (IH H) as [-> Hr]. split; [reflexivity|].
    intros field [<-|Hin]; auto.
Qed.





Lemma addNode_accepted this s now isoNow options node :
  returned (addNode this s now isoNow options) = Ok (Some node) ->
  exists belongsTo idx nodes,
    createNode this now isoNow options = Ok (node, belongsTo)
    /\ index_insert s (entry_of node belongsTo) = Ok idx
    /\ collection_insert (with_index s idx) (typeName this) node = Ok nodes
    /\ store_after (addNode this s now isoNow options)
       = with_collection (with_index s idx) (typeName this) nodes.
Proof.
  unfold addNode.
  destruct (createNode this now isoNow options) as [[n bt]|e] eqn:Hc; [|discriminate].
  destruct (index_insert s (entry_of n bt)) as [idx|e] eqn:Hi; [|discriminate].
  destruct (collection_insert (with_index s idx) (typeName this) n) as [nodes|e] eqn:Hn;
    [|discriminate].
  simpl. intros [= <-]. exists bt, idx, nodes. auto.
Qed.





(** ** Updating a node *)

Lemma createInternals_twice now1 now2 v i1 :
  createInternals now1 v = Ok i1 ->
  createInternals now2 v =
  Ok {| origin := origin i1; mimeType := mimeType i1; content := content i1;
        timestamp := now2 |}.
Proof. unfold createInternals. destruct v; intros [= <-]; reflexivity. Qed.





Lemma findOne_assign_first {D} (matches : D -> bool) (doc d : D) (docs : list D) :
  findOne matches docs = Some d -> matches doc = true ->
  findOne matches (assign_first matches doc docs) = Some doc.
Proof.
  unfold findOne. intros Hfind Hdoc.
  induction docs as [|x r IH]; simpl in *; [discriminate|].
  destruct (matches x) eqn:Hx; simpl.
  - now rewrite Hdoc.
  - rewrite Hx. auto.
Qed.

Lemma findOne_matches {D} (matches : D -> bool) (d : D) (docs : list D) :
  findOne matches docs = Some d -> matches d = true.
Proof. unfold findOne. intros H. now apply find_some in H. Qed.



(** ** Creating a node *)

Lemma stripLeadingSlashes_no_slash (path : string) :
  Str.startsWith "/" (stripLeadingSlashes path) = false.
Proof.
  induction path as [|c r IH]; cbn [stripLeadingSlashes]; [reflexivity|].
  destruct (Ascii.eqb c "/") eqn:Hc; [assumption|].
  change (Str.startsWith "/" (String c r)) with (Ascii.eqb "/" c && true).
  rewrite Ascii.eqb_sym, Hc. reflexivity.
Qed.

Lemma get_null_or_undefined_falsy (v : JsVal) (k : string) :
  truthy (get v k) = true -> v <> JNull /\ v <> JUndefined.
Proof. destruct v; simpl; intros H; split; congruence. Qed.

(** C9 (as amended). When [internal.content] and [internal.mimeType] are
    both truthy and the registry has no transformer for the mime type,
    [createNode] throws [No transformer for <mimeType> is installed.];
    when one of the two is falsy the options are left as they are and the
    registry is not consulted. *)
Theorem createNode_missing_transformer (this : ContentTypeCollection)
    (now : JsNum) (isoNow : string) (options : Obj) :
  let internal := obj_get options "internal" in
  (truthy (get internal "content") = true ->
   truthy (get internal "mimeType") = true ->
   transformers (toString (get internal "mimeType")) = None ->
   createNode this now isoNow options =
   Throw (Error ("No transformer for " +:+ toString (get internal "mimeType")
                 +:+ " is installed.")))
  /\ (truthy (get internal "content") && truthy (get internal "mimeType") = false ->
      forall i, createInternals now internal = Ok i ->
                transformed options i = Ok options).
Proof.
  cbv zeta. split.
  - intros Hc Hm Hnone. unfold createNode.
    destruct (get_null_or_undefined_falsy _ _ Hc) as [Hnull _].
    assert (Hi : createInternals now (obj_get options "internal") =
                 Ok {| origin := get (obj_get options "internal") "origin";
                       mimeType := get (obj_get options "internal") "mimeType";
                       content := get (obj_get options "internal") "content";
                       timestamp := now |}).
    { unfold createInternals. destruct (obj_get options "internal"); congruence. }
    rewrite Hi. simpl. unfold transformed. simpl. rewrite Hc, Hm. simpl.
    unfold transformNodeOptions, transform. simpl. rewrite Hnone. reflexivity.
  - intros Hfalse i Hi. unfold createInternals in Hi.
    unfold transformed.
    destruct (obj_get options "internal"); try discriminate;
      injection Hi as <-; simpl in *; rewrite ?Hfalse; reflexivity.
Qed.

Ltac inv_createNode H :=
  unfold createNode in H;
  let internal := fresh "internal" in
  let Hinternal := fresh "Hinternal" in
  let options' := fresh "options'" in
  let Hoptions := fresh "Hoptions" in
  let fb := fresh "fb" in
  let Hfields := fresh "Hfields" in
  let slug := fresh "slug" in
  let Hslug := fresh "Hslug" in
  let path := fresh "path" in
  let Hpath := fresh "Hpath" in
  apply bind_Ok in H; destruct H as (internal & Hinternal & H);
  apply bind_Ok in H; destruct H as (options' & Hoptions & H);
  apply bind_Ok in H; destruct H as (fb & Hfields & H);
  destruct fb as [fields belongsTo'];
  apply bind_Ok in H; destruct H as (slug & Hslug & H);
  apply bind_Ok in H; destruct H as (path & Hpath & H).

Lemma processDeclaredRefs_total (declared fields : Obj) (belongsTo : BelongsTo) :
  Forall (fun kv => snd kv <> JNull /\ snd kv <> JUndefined) declared ->
  exists belongsTo', processDeclaredRefs declared fields belongsTo = Ok belongsTo'.
Proof.
  intros H. revert belongsTo.
  induction H as [|[fieldName options] r [Hn Hu] _ IH]; intros belongsTo; simpl.
  - eauto.
  - simpl in Hn, Hu. destruct options; try congruence; simpl; apply IH.
Qed.

Lemma processNodeFields_total (this : ContentTypeCollection) (input origin : JsVal) :
  Forall (fun kv => snd kv <> JNull /\ snd kv <> JUndefined) (refs this) ->
  exists fields belongsTo, processNodeFields this input origin = Ok (fields, belongsTo).
Proof.
  intros H. unfold processNodeFields.
  match goal with
  | |- context [processFields ?ra ?o ?i ∅] =>
      destruct (processFields ra o i ∅) as [fields bt]
  end.
  destruct (processDeclaredRefs_total (refs this) fields bt H) as [bt' Hbt].
  exists fields, bt'. now rewrite Hbt.
Qed.

(** C6 (as amended). When the [path] option is a string (after the
    transformer's assignments), the node's path is ["/"] followed by that
    string without its leading slashes, so it starts with exactly one
    ["/"]; otherwise the path is what [makePath] answers. [createNode]
    does return such a node: it does so whenever there is no [internal]
    option, a slug and a path are supplied and every declared reference
    has its options. *)
Theorem createNode_explicit_path (this : ContentTypeCollection)
    (now : JsNum) (isoNow : string) (options : Obj) :
  (forall node belongsTo,
      createNode this now isoNow options = Ok (node, belongsTo) ->
      exists internal options',
        createInternals now (obj_get options "internal") = Ok internal
        /\ transformed options internal = Ok options'
        /\ match obj_get options' "path" with
           | JStr path =>
               node_withPath node = true
               /\ node_path node = String "/" (stripLeadingSlashes path)
               /\ Str.startsWith "/" (stripLeadingSlashes path) = false
           | _ =>
               node_withPath node = false
               /\ makePath this (node_props_before_path node) = Ok (node_path node)
           end)
  /\ (forall path,
        obj_get options "internal" = JUndefined ->
        Forall (fun kv => snd kv <> JNull /\ snd kv <> JUndefined) (refs this) ->
        truthy (obj_get options "slug") = true ->
        obj_get options "path" = JStr path ->
        exists node belongsTo,
          createNode this now isoNow options = Ok (node, belongsTo)
          /\ node_path node = String "/" (stripLeadingSlashes path)).
Proof.
  split.
  - intros node belongsTo H. inv_createNode H. injection H as <- <-.
    exists internal, options'. split; [assumption|]. split; [assumption|].
    simpl. destruct (obj_get options' "path") eqn:Hp; simpl in *;
      try (split; [reflexivity | exact Hpath]).
    injection Hpath as <-. repeat split. apply stripLeadingSlashes_no_slash.
  - intros path Hi Hrefs Hslug Hpath. unfold createNode.
    rewrite Hi. cbn [createInternals mbind Outcome_bind].
    unfold transformed. cbn [content mimeType get own_props obj_get truthy andb].
    cbn [mbind Outcome_bind].
    match goal with
    | |- context [processNodeFields this ?i ?o] =>
        destruct (processNodeFields_total this i o Hrefs) as (fields & bt & Hf);
        rewrite Hf
    end.
    cbn [mbind Outcome_bind].
    unfold slug_or. rewrite Hslug, Hpath. cbn [mbind Outcome_bind].
    eexists _, _. split; reflexivity.
Qed.

Lemma obj_get_take (result : JsVal) (key key' : string) (options : Obj) :
  obj_get (take result key options) key' =
  if String.eqb key key' && truthy (get result key)
  then get result key else obj_get options key'.
Proof.
  unfold take. destruct (truthy (get result key)).
  - rewrite obj_get_set. now rewrite andb_true_r.
  - now rewrite andb_false_r.
Qed.

Lemma obj_has_false (o : Obj) (k : string) :
  obj_has o k = false <-> ~ In k (List.map fst o).
Proof.
  induction o as [|[k' v] r IH]; simpl; [tauto|].
  rewrite orb_false_iff, IH. split.
  - intros [Hk Hr] [Heq|Hin]; [|tauto].
    subst. now rewrite String.eqb_refl in Hk.
  - intros Hn. split; [|tauto]. apply String.eqb_neq. intros ->. tauto.
Qed.

Lemma assign_get_other (source target : Obj) (k : string) :
  obj_has source k = false ->
  obj_get (fold_left (fun acc kv => obj_set acc (fst kv) (snd kv)) source target) k
  = obj_get target k.
Proof.
  revert target. induction source as [|[k' v] r IH]; intros target H; simpl in *;
    [reflexivity|].
  apply orb_false_iff in H as [Hk Hr]. rewrite IH by assumption.
  apply obj_get_set_ne. now apply String.eqb_neq.
Qed.

Lemma assign_get_source (source target : Obj) (k : string) (v : JsVal) :
  List.NoDup (List.map fst source) -> In (k, v) source ->
  obj_get (fold_left (fun acc kv => obj_set acc (fst kv) (snd kv)) source target) k = v.
Proof.
  revert target. induction source as [|[k' v'] r IH]; intros target Hnd Hin;
    simpl in *; [contradiction|].
  inversion Hnd as [|? ? Hnotin Hnd']; subst.
  destruct Hin as [[= -> ->]|Hin].
  - rewrite assign_get_other by now apply obj_has_false.
    apply obj_get_set_eq.
  - now apply IH.
Qed.

(** C2 (as amended). Every truthy [title], [slug], [path], [date],
    [content] and [excerpt] of the transformer's result replaces the
    caller's option, supplied or not; a truthy [fields] is merged into
    [options.fields] key by key, the transformer's value winning; an option
    is kept where the result has nothing truthy under its key. *)
Theorem transformNodeOptions_overrides (options : Obj) (internal : Internal)
    (parse : JsVal -> Outcome JsVal) (result : JsVal) :
  transformers (toString (mimeType internal)) = Some parse ->
  parse (content internal) = Ok result ->
  result <> JUndefined -> result <> JNull ->
  exists options',
    transformNodeOptions options internal = Ok options'
    /\ (truthy (content internal) && truthy (mimeType internal) = true ->
        transformed options internal = Ok options')
    /\ (forall key,
          In key ["title"; "slug"; "path"; "date"; "content"; "excerpt"] ->
          obj_get options' key =
          if truthy (get result key) then get result key else obj_get options key)
    /\ obj_get options' "fields" =
       (if truthy (get result "fields")
        then Object_assign (obj_get options "fields" ||| JObj []) (get result "fields")
        else obj_get options "fields")
    /\ (forall key,
          ~ In key ["title"; "slug"; "path"; "date"; "content"; "excerpt"; "fields"] ->
          obj_get options' key = obj_get options key)
    /\ (forall target source key value,
          List.NoDup (List.map fst source) -> In (key, value) source ->
          get (Object_assign (JObj target) (JObj source)) key = value)
    /\ (forall target source key,
          hasOwnProperty source key = false ->
          get (Object_assign target source) key = get target key).
Proof.
  intros Hreg Hparse Hu Hn.
  eexists. split.
  { unfold transformNodeOptions, transform. rewrite Hreg, Hparse. simpl.
    destruct result; try congruence; reflexivity. }
  split.
  { intros Hboth. unfold transformed. rewrite Hboth.
    unfold transformNodeOptions, transform. rewrite Hreg, Hparse. simpl.
    destruct result; try congruence; reflexivity. }
  split.
  { intros key Hkey.
    destruct (truthy (get result "fields"));
      [rewrite obj_get_set_ne
         by (intros <-; simpl in Hkey; intuition discriminate)|];
      rewrite !obj_get_take;
      simpl in Hkey;
      destruct Hkey as [<-|[<-|[<-|[<-|[<-|[<-|[]]]]]]]; simpl;
      repeat match goal with
             | |- context [truthy ?v] => destruct (truthy v) eqn:?
             end; congruence. }
  split.
  { destruct (truthy (get result "fields")).
    - rewrite obj_get_set_eq. f_equal. f_equal. now rewrite !obj_get_take.
    - now rewrite !obj_get_take. }
  split.
  { intros key Hkey. simpl in Hkey.
    assert (Hne : forall k, In k ["title"; "slug"; "path"; "date"; "content";
                                 "excerpt"; "fields"] -> String.eqb k key = false).
    { intros k Hk. apply String.eqb_neq. intros ->. apply Hkey.
      simpl in Hk. tauto. }
    destruct (truthy (get result "fields"));
      [rewrite obj_get_set_ne by (intros <-; apply Hkey; tauto)|];
      rewrite !obj_get_take;
      rewrite !Hne by (simpl; tauto); reflexivity. }
  split.
  { intros target source key value Hnd Hin. unfold Object_assign, get. simpl.
    now apply assign_get_source. }
  intros target source key Hhas. unfold Object_assign, get, hasOwnProperty in *.
  simpl. now apply assign_get_other.
Qed.

(** ** Key sanitation *)

Lemma replaceNonValidChars_word (key : string) :
  Str.forallb Str.is_word (replaceNonValidChars key) = true.
Proof.
  induction key as [|c r IH]; simpl; [reflexivity|].
  fold (replaceNonValidChars r). rewrite IH, andb_true_r.
  destruct (Str.is_word c) eqn:Hc; [assumption | reflexivity].
Qed.

Lemma prefixLeadingNumber_no_digit (s : string) :
  starts_with_digit (prefixLeadingNumber s) = false.
Proof.
  destruct s as [|c r]; simpl; [reflexivity|].
  destruct (Str.is_digit c) eqn:Hc; simpl; [reflexivity | assumption].
Qed.

Lemma prefixLeadingNumber_word (s : string) :
  Str.forallb Str.is_word s = true ->
  Str.forallb Str.is_word (prefixLeadingNumber s) = true.
Proof.
  destruct s as [|c r]; simpl; [reflexivity|].
  destruct (Str.is_digit c); simpl; auto.
Qed.

Lemma digit_not_underscore (c : ascii) :
  Str.is_digit c = true -> Ascii.eqb "_" c = false.
Proof.
  intros H. destruct (Ascii.eqb "_" c) eqn:Hc; [|reflexivity].
  apply Ascii.eqb_eq in Hc. subst c. discriminate.
Qed.

Lemma prefixLeadingNumber_no_dunder (s : string) :
  Str.startsWith "__" s = false ->
  Str.startsWith "__" (prefixLeadingNumber s) = false.
Proof.
  destruct s as [|c r]; simpl; [reflexivity|].
  destruct (Str.is_digit c) eqn:Hc; [|auto].
  intros _.
  change (Ascii.eqb "_" "_" && (Ascii.eqb "_" c && true) = false).
  now rewrite (digit_not_underscore c Hc).
Qed.

Lemma createKey_no_dunder :
  camelCase_keeps_identifiers ->
  forall key, Str.startsWith "__" (createKey key) = false.
Proof.
  intros H key. unfold createKey. apply prefixLeadingNumber_no_dunder.
  apply H, replaceNonValidChars_word.
Qed.

Lemma processFields_obj ra origin (props : list (string * JsVal)) (bt : BelongsTo) :
  processFields ra origin (JObj props) bt = each_prop ra origin props [] bt.
Proof. reflexivity. Qed.

Lemma processFields_arr ra origin (items : list JsVal) (bt : BelongsTo) :
  processFields ra origin (JArr items) bt = each_item ra origin items 0 [] bt.
Proof. reflexivity. Qed.

Lemma processEntry_array ra origin key items res bt :
  Str.startsWith "__" key = false ->
  processEntry ra origin key (JArr items) res bt =
  (obj_set res (createKey key) (JArr (fst (map_items ra origin items bt))),
   snd (map_items ra origin items bt)).
Proof.
  intros Hk. unfold processEntry, processEntry_with. rewrite Hk.
  fold (processField ra origin).
  change ((fix map_items (l : list JsVal) (bt : BelongsTo) {struct l} :
             list JsVal * BelongsTo :=
             match l with
             | [] => ([], bt)
             | x :: r =>
                 let '(x', bt1) := processField ra origin x bt in
                 let '(r', bt2) := map_items r bt1 in (x' :: r', bt2)
             end) items bt)
    with (map_items ra origin items bt).
  now destruct (map_items ra origin items bt).
Qed.

Lemma processEntry_value ra origin key value res bt :
  Str.startsWith "__" key = false -> isArray value = false ->
  processEntry ra origin key value res bt =
  (obj_set res (createKey key) (fst (processField ra origin value bt)),
   snd (processField ra origin value bt)).
Proof.
  intros Hk Ha. unfold processEntry, processEntry_with. rewrite Hk.
  fold (processField ra origin).
  destruct value; try discriminate;
    now destruct (processField ra origin _ bt).
Qed.

Lemma processEntry_internal ra origin key value res bt :
  Str.startsWith "__" key = true ->
  processEntry ra origin key value res bt = (obj_set res key value, bt).
Proof. intros Hk. unfold processEntry, processEntry_with. now rewrite Hk. Qed.

Lemma processEntry_fst ra origin key value res bt :
  exists value',
    fst (processEntry ra origin key value res bt) = obj_set res (written_key key) value'.
Proof.
  unfold written_key. destruct (Str.startsWith "__" key) eqn:Hk.
  - rewrite processEntry_internal by assumption. now exists value.
  - destruct (isArray value) eqn:Ha.
    + destruct value; try discriminate.
      rewrite processEntry_array by assumption. eauto.
    + rewrite processEntry_value by assumption. eauto.
Qed.

Lemma each_prop_get_other ra origin (ps : list (string * JsVal)) res bt key :
  (forall k, In k (List.map fst ps) -> written_key k <> key) ->
  obj_get (fst (each_prop ra origin ps res bt)) key = obj_get res key.
Proof.
  revert res bt. induction ps as [|[k v] ps IH]; intros res bt Hother; simpl;
    [reflexivity|].
  destruct (processEntry ra origin k v res bt) as [res' bt'] eqn:He.
  rewrite IH by (intros; apply Hother; simpl; auto).
  destruct (processEntry_fst ra origin k v res bt) as [v' Hv'].
  rewrite He in Hv'. simpl in Hv'. rewrite Hv'.
  apply obj_get_set_ne. apply Hother. simpl. auto.
Qed.

Lemma each_prop_internal_key ra origin (ps : list (string * JsVal)) res bt key value :
  (forall k, Str.startsWith "__" (createKey k) = false) ->
  List.NoDup (List.map fst ps) -> In (key, value) ps ->
  Str.startsWith "__" key = true ->
  obj_get (fst (each_prop ra origin ps res bt)) key = value.
Proof.
  intros Hck. revert res bt.
  induction ps as [|[k v] ps IH]; intros res bt Hnd Hin Hkey; simpl in *;
    [contradiction|].
  inversion Hnd as [|? ? Hnotin Hnd']; subst.
  destruct (processEntry ra origin k v res bt) as [res' bt'] eqn:He.
  destruct Hin as [[= -> ->]|Hin]; [|now apply IH].
  rewrite processEntry_internal in He by assumption. injection He as <- <-.
  rewrite each_prop_get_other; [apply obj_get_set_eq|].
  intros k Hk Heq. unfold written_key in Heq.
  destruct (Str.startsWith "__" k) eqn:Hd.
  - subst k. contradiction.
  - rewrite <- Heq, Hck in Hkey. discriminate.
Qed.

(** C4 (as amended). [createKey] first makes every character one of
    [[a-zA-Z0-9_]]; its result never begins with a digit; when the
    camelcase package keeps such strings such, the result consists of
    [[a-zA-Z0-9_]] only and does not begin with ["__"]; and
    [processFields] leaves a key that begins with ["__"] in place with its
    value as it was supplied. *)
Theorem createKey_sanitised :
  (forall key, Str.forallb Str.is_word (replaceNonValidChars key) = true)
  /\ (forall key, starts_with_digit (createKey key) = false)
  /\ (camelCase_keeps_identifiers ->
      (forall key,
          Str.forallb Str.is_word (createKey key) = true
          /\ Str.startsWith "__" (createKey key) = false)
      /\ (forall ra origin props belongsTo key value,
             List.NoDup (List.map fst props) -> In (key, value) props ->
             Str.startsWith "__" key = true ->
             obj_get (fst (processFields ra origin (JObj props) belongsTo)) key = value)).
Proof.
  split; [exact replaceNonValidChars_word|].
  split; [intros key; apply prefixLeadingNumber_no_digit|].
  intros H. split.
  - intros key. split; [|now apply createKey_no_dunder].
    unfold createKey. apply prefixLeadingNumber_word.
    apply H, replaceNonValidChars_word.
  - intros ra origin props belongsTo key value Hnd Hin Hkey.
    rewrite processFields_obj.
    apply each_prop_internal_key; auto using createKey_no_dunder.
Qed.

(** ** Reference detection *)

Lemma processRefField_mono typeName id bt a b :
  recorded bt a b -> recorded (processRefField typeName id bt) a b.
Proof.
  intros (ids & Hids & Hb). unfold processRefField, recorded; cbv zeta.
  destruct (decide (toString typeName = a)) as [<-|Hne].
  - rewrite lookup_insert_eq. eexists. split; [reflexivity|].
    rewrite Hids. simpl. set_solver.
  - rewrite lookup_insert_ne by assumption. eauto.
Qed.

Lemma processRefField_records typeName id bt i :
  In i (as_list id) ->
  recorded (processRefField typeName id bt) (toString typeName) (toString i).
Proof.
  intros Hi. unfold processRefField, recorded; cbv zeta.
  rewrite lookup_insert_eq. eexists. split; [reflexivity|].
  apply elem_of_union_r, elem_of_list_to_set, list_elem_of_In.
  destruct id; try (destruct Hi as [<-|[]]; simpl; auto; fail).
  now apply in_map.
Qed.

Lemma fold_processRefField_mono id (typeNames : list JsVal) bt a b :
  recorded bt a b ->
  recorded (fold_left (fun bt t => processRefField t id bt) typeNames bt) a b.
Proof.
  revert bt. induction typeNames as [|t r IH]; intros bt H; simpl; [assumption|].
  apply IH. now apply processRefField_mono.
Qed.

Lemma registerRef_mono field bt a b :
  recorded bt a b -> recorded (registerRef field bt) a b.
Proof.
  intros H. unfold registerRef. destruct (isRefField field); [|assumption].
  destruct (get field "typeName");
    auto using processRefField_mono, fold_processRefField_mono.
Qed.



Section Normalised.

Variable ra : bool.
Variable origin : JsVal.

Lemma processField_snd v bt :
  snd (processField ra origin v bt) =
  if isObject v then snd (processFields ra origin v (registerRef v bt)) else bt.
Proof.
  unfold processField, processField_with.
  destruct v; cbn [isObject]; try reflexivity;
    match goal with
    | |- context [processFields ra origin ?x ?y] =>
        now destruct (processFields ra origin x y)
    end.
Qed.

Lemma processField_mono_if v : keeps_records ra origin v -> monotone (fun bt => snd (processField ra origin v bt)).
Proof.
  intros HQ bt a b H. rewrite processField_snd.
  destruct (isObject v); [|assumption].
  apply HQ. now apply registerRef_mono.
Qed.

Lemma map_items_snd_cons x r bt :
  snd (map_items ra origin (x :: r) bt) =
  snd (map_items ra origin r (snd (processField ra origin x bt))).
Proof.
  simpl. destruct (processField ra origin x bt) as [x' bt1]. simpl.
  now destruct (map_items ra origin r bt1).
Qed.

Lemma map_items_mono_if items :
  Forall (keeps_records ra origin) items -> monotone (fun bt => snd (map_items ra origin items bt)).
Proof.
  induction 1 as [|x r Hx Hr IH]; intros bt a b H; [assumption|].
  rewrite map_items_snd_cons. apply IH. now apply processField_mono_if.
Qed.

Lemma processEntry_mono_if key value res :
  keeps_records_deep ra origin value -> monotone (fun bt => snd (processEntry ra origin key value res bt)).
Proof.
  intros [HQ Hitems] bt a b H.
  destruct (Str.startsWith "__" key) eqn:Hk.
  - now rewrite processEntry_internal.
  - destruct (isArray value) eqn:Ha.
    + destruct value; try discriminate.
      rewrite processEntry_array by assumption. simpl.
      now apply map_items_mono_if.
    + rewrite processEntry_value by assumption. simpl.
      now apply processField_mono_if.
Qed.

Lemma each_prop_cons key value ps res bt :
  each_prop ra origin ((key, value) :: ps) res bt =
  each_prop ra origin ps (fst (processEntry ra origin key value res bt))
            (snd (processEntry ra origin key value res bt)).
Proof. simpl. now destruct (processEntry ra origin key value res bt). Qed.

Lemma each_item_cons value l i res bt :
  each_item ra origin (value :: l) i res bt =
  each_item ra origin l (S i)
            (fst (processEntry ra origin (Str.of_nat i) value res bt))
            (snd (processEntry ra origin (Str.of_nat i) value res bt)).
Proof. simpl. now destruct (processEntry ra origin (Str.of_nat i) value res bt). Qed.

Lemma each_prop_mono_if ps :
  Forall (fun kv => keeps_records_deep ra origin (snd kv)) ps ->
  forall res, monotone (fun bt => snd (each_prop ra origin ps res bt)).
Proof.
  induction 1 as [|[k v] r Hx Hr IH]; intros res bt a b H; [assumption|].
  rewrite each_prop_cons. apply IH. now apply processEntry_mono_if.
Qed.

Lemma each_item_mono_if l :
  Forall (keeps_records_deep ra origin) l ->
  forall i res, monotone (fun bt => snd (each_item ra origin l i res bt)).
Proof.
  induction 1 as [|v r Hx Hr IH]; intros i res bt a b H; [assumption|].
  rewrite each_item_cons. apply IH. now apply processEntry_mono_if.
Qed.

Lemma processFields_mono_all v : keeps_records_deep ra origin v.
Proof.
  induction v as [| | | | |items IH|props IH] using JsVal_nested_ind;
    try (split; [intros ? ? ? H; exact H | exact I]).
  - split.
    + intros bt a b Hr. rewrite processFields_arr. now apply each_item_mono_if.
    + eapply Forall_impl; [exact IH|]. now intros x [Hq _].
  - split; [|exact I].
    intros bt a b Hr. rewrite processFields_obj. now apply each_prop_mono_if.
Qed.

Lemma processField_mono v : monotone (fun bt => snd (processField ra origin v bt)).
Proof. apply processField_mono_if, processFields_mono_all. Qed.

Lemma processEntry_mono key value res :
  monotone (fun bt => snd (processEntry ra origin key value res bt)).
Proof. apply processEntry_mono_if, processFields_mono_all. Qed.






Lemma of_uint_head (d : Decimal.uint) :
  match DecimalString.NilEmpty.string_of_uint d with
  | EmptyString => True
  | String c _ => Str.is_digit c = true
  end.
Proof. destruct d; simpl; auto. Qed.

Lemma of_nat_not_internal (i : nat) : Str.startsWith "__" (Str.of_nat i) = false.
Proof.
  unfold Str.of_nat. pose proof (of_uint_head (Nat.to_uint i)) as H.
  destruct (DecimalString.NilEmpty.string_of_uint (Nat.to_uint i)) as [|c r];
    [reflexivity|].
  change (Ascii.eqb "_" c && Str.startsWith "_" r = false).
  destruct (Ascii.eqb "_" c) eqn:Hc; [|reflexivity].
  apply Ascii.eqb_eq in Hc. subst c. discriminate.
Qed.




Lemma processDeclaredRefs_mono declared fields bt bt' a b :
  processDeclaredRefs declared fields bt = Ok bt' ->
  recorded bt a b -> recorded bt' a b.
Proof.
  revert bt. induction declared as [|[fieldName options] r IH]; intros bt H Hr; simpl in H.
  - now injection H as <-.
  - apply bind_Ok in H as (typeName & _ & H).
    eapply IH; [exact H|]. now apply processRefField_mono.
Qed.








End Normalised.


End Properties.

(* ===================================================================== *)
(** * Further properties of the code *)
(* ===================================================================== *)

Section FurtherProperties.

Context `{E : Externals}.

(** ** Identifiers and the store *)

Lemma num_eq_eq (a b : JsNum) : num_eq a b = true -> a = b.
Proof.
  destruct a, b; simpl; try discriminate; intros H.
  - apply Z.eqb_eq in H. now subst.
  - apply andb_true_iff in H as [H1 H2].
    apply Z.eqb_eq in H1. apply Pos.eqb_eq in H2. now subst.
  - apply Bool.eqb_prop in H. now subst.
Qed.

Lemma strict_eq_eq (v w : JsVal) : strict_eq v w = true -> v = w.
Proof.
  revert w. induction v as [| | | | |items IH|props IH] using JsVal_nested_ind;
    intros w; destruct w; simpl; try discriminate; intros H; try reflexivity.
  - apply Bool.eqb_prop in H. now subst.
  - apply num_eq_eq in H. now subst.
  - apply String.eqb_eq in H. now subst.
  - f_equal. revert items0 H.
    induction IH as [|x r Hx Hr IHr]; intros [|y ys] H; try discriminate; [reflexivity|].
    apply andb_true_iff in H as [H1 H2]. f_equal; auto.
  - f_equal. revert props0 H.
    induction IH as [|[k x] r Hx Hr IHr]; intros [|[k' y] ys] H; try discriminate;
      [reflexivity|].
    apply andb_true_iff in H as [H1 H2]. apply andb_true_iff in H1 as [H0 H1].
    apply String.eqb_eq in H0. simpl in Hx. f_equal; [f_equal|]; auto.
Qed.

Lemma or_else_key (a b : JsVal) : key_of b <> None -> key_of (a ||| b) <> None.
Proof.
  unfold or_else. intros Hb. destruct (truthy a) eqn:Ha; [|assumption].
  destruct a; simpl in *; congruence.
Qed.

Lemma createNode_id this now isoNow options node belongsTo :
  createNode this now isoNow options = Ok (node, belongsTo) ->
  node_id node = obj_get options "id" ||| obj_get options "_id"
                 ||| JStr (makeUid (JSON_stringify options))
  /\ node__id node = node_id node
  /\ node_uid node = md5_hex (typeName this +:+ toString (node_id node))
  /\ node_typeName node = typeName this.
Proof.
  intros H. unfold createNode in H.
  apply bind_Ok in H as (internal & _ & H).
  apply bind_Ok in H as (options' & _ & H).
  apply bind_Ok in H as ([fields bt] & _ & H).
  apply bind_Ok in H as (slug & _ & H).
  apply bind_Ok in H as (path & _ & H).
  injection H as <- <-. repeat split.
Qed.

Lemma createNode_id_key this now isoNow options node belongsTo :
  createNode this now isoNow options = Ok (node, belongsTo) ->
  key_of (node_id node) <> None.
Proof.
  intros H. destruct (createNode_id _ _ _ _ _ _ H) as [-> _].
  apply or_else_key. simpl. discriminate.
Qed.

Lemma createNode_internal this now isoNow options node belongsTo :
  createNode this now isoNow options = Ok (node, belongsTo) ->
  createInternals now (obj_get options "internal") = Ok (node_internal node).
Proof.
  intros H. unfold createNode in H.
  apply bind_Ok in H as (internal & Hi & H).
  apply bind_Ok in H as (options' & _ & H).
  apply bind_Ok in H as ([fields bt] & _ & H).
  apply bind_Ok in H as (slug & _ & H).
  apply bind_Ok in H as (path & _ & H).
  injection H as <- <-. exact Hi.
Qed.

Lemma createInternals_timestamp now v i :
  createInternals now v = Ok i -> timestamp i = now.
Proof. unfold createInternals. destruct v; intros [= <-]; reflexivity. Qed.

Lemma node_key_id (n : Node) : node_key "id" n = key_of (node_id n).
Proof. reflexivity. Qed.

Lemma find_app_last {A} (p : A -> bool) (l : list A) (x : A) :
  (forall y, In y l -> p y = false) -> p x = true ->
  List.find p (l ++ [x])%list = Some x.
Proof.
  intros Hl Hx. induction l as [|y r IH]; simpl; [now rewrite Hx|].
  rewrite (Hl y) by (simpl; auto). apply IH. intros; apply Hl; simpl; auto.
Qed.

Lemma filter_app_last {A} (p : A -> bool) (l : list A) (x : A) :
  (forall y, In y l -> p y = true) -> p x = false ->
  List.filter p (l ++ [x])%list = l.
Proof.
  intros Hl Hx. induction l as [|y r IH]; simpl; [now rewrite Hx|].
  rewrite (Hl y) by (simpl; auto). f_equal. apply IH. intros; apply Hl; simpl; auto.
Qed.

Lemma find_filter_none {A} (p : A -> bool) (l : list A) :
  List.find p (List.filter (fun x => negb (p x)) l) = None.
Proof.
  induction l as [|x r IH]; simpl; [reflexivity|].
  destruct (p x) eqn:Hp; simpl; [assumption|]. now rewrite Hp.
Qed.

Lemma accepted_id_fresh (docs docs' : list Node) (node : Node) :
  insert_unique node_key ["id"; "path"] docs node = Ok docs' ->
  key_of (node_id node) <> None ->
  forall n, In n docs -> strict_eq (node_id n) (node_id node) = false.
Proof.
  intros Hins Hkey n Hn.
  apply insert_unique_Ok in Hins as [_ Hf].
  specialize (Hf "id" (or_introl eq_refl)).
  destruct (strict_eq (node_id n) (node_id node)) eqn:Heq; [|reflexivity].
  apply strict_eq_eq in Heq.
  assert (Hex : existsb (fun d => same_key (node_key "id" d) (node_key "id" node)) docs
                = true).
  { apply existsb_exists. exists n. split; [assumption|].
    rewrite !node_key_id, Heq. destruct (key_of (node_id node)); [|congruence].
    simpl. apply String.eqb_refl. }
  congruence.
Qed.

Lemma same_uid_key (e e' : IndexEntry) :
  same_key (entry_key "uid" e) (entry_key "uid" e') = String.eqb (ie_uid e) (ie_uid e').
Proof. reflexivity. Qed.

Lemma assign_first_length {D} (matches : D -> bool) (doc : D) (docs : list D) :
  length (assign_first matches doc docs) = length docs.
Proof. induction docs as [|x r IH]; simpl; [reflexivity|]. destruct (matches x); simpl; auto. Qed.

Lemma assign_first_In_other {D} (matches : D -> bool) (doc d : D) (docs : list D) :
  matches d = false -> matches doc = true ->
  (In d (assign_first matches doc docs) <-> In d docs).
Proof.
  intros Hd Hdoc. induction docs as [|x r IH]; simpl; [tauto|].
  destruct (matches x) eqn:Hx; simpl.
  - split; intros [->|H]; auto; congruence.
  - tauto.
Qed.

Lemma appended_node_found this s (node : Node) :
  (forall n, In n (collection_of s (typeName this)) ->
             strict_eq (node_id n) (node_id node) = false) ->
  strict_eq (node_id node) (node_id node) = true ->
  getNode this
    (with_collection s (typeName this) (collection_of s (typeName this) ++ [node])%list)
    (node_id node) = Some node.
Proof.
  intros Hfresh Hrefl. unfold getNode, findOne. rewrite collection_of_with_collection.
  destruct (decide (typeName this = typeName this)); [|congruence].
  apply find_app_last; assumption.
Qed.

(** X1. The identifier of a created node is the [id] option, else the
    [_id] option, else the digest of the options as JSON, read before a
    transformer touches the options; [_id] repeats it, [uid] is the digest
    of the type name followed by the identifier as a string, the internal
    timestamp is the time of the call; so the identifier and the [uid] are
    the same at any other time and for any collection of the same type
    name. *)
Theorem createNode_identity this now isoNow options node belongsTo :
  createNode this now isoNow options = Ok (node, belongsTo) ->
  let id := obj_get options "id" ||| obj_get options "_id"
            ||| JStr (makeUid (JSON_stringify options)) in
  node_id node = id
  /\ node__id node = id
  /\ node_uid node = md5_hex (typeName this +:+ toString id)
  /\ node_typeName node = typeName this
  /\ timestamp (node_internal node) = now
  /\ forall this' now' isoNow' node' belongsTo',
       typeName this' = typeName this ->
       createNode this' now' isoNow' options = Ok (node', belongsTo') ->
       node_id node' = node_id node /\ node_uid node' = node_uid node.
Proof.
  intros H id. pose proof (createNode_id _ _ _ _ _ _ H) as (Hid & H_id & Huid & Htn).
  subst id. rewrite H_id, Huid, Hid. repeat split; try assumption.
  - eapply createInternals_timestamp, createNode_internal, H.
  - pose proof (createNode_id _ _ _ _ _ _ H1) as (Hid' & _). congruence.
  - pose proof (createNode_id _ _ _ _ _ _ H1) as (Hid' & _ & Huid' & _).
    rewrite Huid', Hid', H0. reflexivity.
Qed.

(** X2. In a created node each of [title], [date], [content] and
    [excerpt] is the first truthy one of the option (after the
    transformer), the normalised field of that name and the default: the
    identifier, the current time, and the empty string twice; the slug is
    the option, else the field, else the slugified title. *)
Theorem createNode_precedence this now isoNow options node belongsTo :
  createNode this now isoNow options = Ok (node, belongsTo) ->
  exists options',
    transformed options (node_internal node) = Ok options'
    /\ processNodeFields this (obj_get options' "fields") (origin (node_internal node))
       = Ok (node_fields node, belongsTo)
    /\ (let fields := node_fields node in
        node_title node = obj_get options' "title" ||| obj_get fields "title" ||| node_id node
        /\ node_date node = obj_get options' "date" ||| obj_get fields "date" ||| JStr isoNow
        /\ node_content node
           = obj_get options' "content" ||| obj_get fields "content" ||| JStr ""
        /\ node_excerpt node
           = obj_get options' "excerpt" ||| obj_get fields "excerpt" ||| JStr ""
        /\ (if truthy (obj_get options' "slug") then node_slug node = obj_get options' "slug"
            else if truthy (obj_get fields "slug") then node_slug node = obj_get fields "slug"
            else exists slug, slugify (node_title node) = Ok slug
                              /\ node_slug node = JStr slug)).
Proof.
  intros H. unfold createNode in H.
  apply bind_Ok in H as (internal & Hi & H).
  apply bind_Ok in H as (options' & Ho & H).
  apply bind_Ok in H as ([fields bt] & Hf & H).
  apply bind_Ok in H as (slug & Hs & H).
  apply bind_Ok in H as (path & Hp & H).
  injection H as <- <-. cbn [node_internal node_fields node_title node_date node_content
                            node_excerpt node_slug node_id].
  exists options'. split; [assumption|]. split; [assumption|].
  repeat (split; [reflexivity|]).
  unfold slug_or in Hs.
  destruct (truthy (obj_get options' "slug")); [congruence|].
  destruct (truthy (obj_get fields "slug")); [congruence|].
  apply bind_Ok in Hs as (s & Hs & [= <-]). eauto.
Qed.

(** X3. When raw content has a transformer whose [parse] throws, or
    answers null or undefined, [createNode] throws that error (a
    [TypeError] in the second case), and [addNode] throws it leaving the
    collection's mime types, the store and the listeners untouched. *)
Theorem addNode_transformer_failure this s now isoNow options parse e :
  let internal := obj_get options "internal" in
  truthy (get internal "content") = true ->
  truthy (get internal "mimeType") = true ->
  transformers (toString (get internal "mimeType")) = Some parse ->
  match parse (get internal "content") with
  | Throw e' => e = e'
  | Ok JNull | Ok JUndefined => e = TypeError
  | Ok _ => False
  end ->
  createNode this now isoNow options = Throw e
  /\ let r := addNode this s now isoNow options in
     returned r = Throw e /\ this_after r = this /\ store_after r = s /\ effects r = [].
Proof.
  intros internal Hc Hm Hreg Hparse. subst internal.
  assert (Hcreate : createNode this now isoNow options = Throw e).
  { unfold createNode.
    destruct (get_null_or_undefined_falsy _ _ Hc) as [Hnull _].
    assert (Hi : createInternals now (obj_get options "internal") =
                 Ok {| origin := get (obj_get options "internal") "origin";
                       mimeType := get (obj_get options "internal") "mimeType";
                       content := get (obj_get options "internal") "content";
                       timestamp := now |}).
    { unfold createInternals. destruct (obj_get options "internal"); congruence. }
    rewrite Hi. cbn [mbind Outcome_bind]. unfold transformed. cbn [content mimeType].
    rewrite Hc, Hm. cbn [andb]. unfold transformNodeOptions, transform. cbn [mimeType content].
    rewrite Hreg.
    destruct (parse (get (obj_get options "internal") "content")) as [result|e'].
    - destruct result; try contradiction; subst e; reflexivity.
    - subst e. reflexivity. }
  split; [exact Hcreate|]. cbv zeta. unfold addNode. rewrite Hcreate. repeat split.
Qed.

(** X4. A node [addNode] returns is found again by [getNode] with its
    identifier (an identifier equal to itself, so not [NaN]); before the
    call no node of the collection had that identifier, and the index
    gained the node's entry at its end. *)
Theorem addNode_then_getNode this s now isoNow options node :
  returned (addNode this s now isoNow options) = Ok (Some node) ->
  strict_eq (node_id node) (node_id node) = true ->
  let s' := store_after (addNode this s now isoNow options) in
  getNode this s' (node_id node) = Some node
  /\ getNode this s (node_id node) = None
  /\ exists belongsTo, index s' = (index s ++ [entry_of node belongsTo])%list.
Proof.
  intros Hret Hrefl s'.
  destruct (addNode_accepted _ _ _ _ _ _ Hret) as (bt & idx & nodes & Hc & Hi & Hn & Hs).
  pose proof (createNode_id_key _ _ _ _ _ _ Hc) as Hkey.
  pose proof (accepted_id_fresh _ _ _ Hn Hkey) as Hfresh.
  apply insert_unique_Ok in Hn as [-> _]. apply insert_unique_Ok in Hi as [-> _].
  subst s'. rewrite Hs. split; [|split].
  - change (collection_of s (typeName this))
      with (collection_of (with_index s (index s ++ [entry_of node bt])%list)
                          (typeName this)).
    apply appended_node_found; assumption.
  - unfold getNode, findOne.
    destruct (List.find _ (collection_of s (typeName this))) as [n|] eqn:Hfind;
      [|reflexivity].
    apply find_some in Hfind as [Hin Hp].
    rewrite (Hfresh n) in Hp; [discriminate | exact Hin].
  - exists bt. reflexivity.
Qed.


(** X6. [addNode] only ever adds to the collection's mime types, and
    only the truthy mime type of the node it created, which it registers
    even when the node is then refused; the type name, the references, the
    route and the schema fields stay as they were. *)
Theorem addNode_registers_mimeType this s now isoNow options :
  let r := addNode this s now isoNow options in
  mimeTypes this ⊆ mimeTypes (this_after r)
  /\ same_for_createNode this (this_after r)
  /\ schemaFields (this_after r) = schemaFields this
  /\ (forall node belongsTo,
        createNode this now isoNow options = Ok (node, belongsTo) ->
        truthy (mimeType (node_internal node)) = true ->
        toString (mimeType (node_internal node)) ∈ mimeTypes (this_after r))
  /\ (forall key, key ∈ mimeTypes (this_after r) ->
        key ∈ mimeTypes this
        \/ exists node belongsTo,
             createNode this now isoNow options = Ok (node, belongsTo)
             /\ truthy (mimeType (node_internal node)) = true
             /\ key = toString (mimeType (node_internal node))).
Proof.
  cbv zeta. unfold addNode.
  assert (Hreg : forall mt,
             mimeTypes this ⊆ mimeTypes (registerMimeType this mt)
             /\ same_for_createNode this (registerMimeType this mt)
             /\ schemaFields (registerMimeType this mt) = schemaFields this
             /\ (truthy mt = true -> toString mt ∈ mimeTypes (registerMimeType this mt))
             /\ (forall key, key ∈ mimeTypes (registerMimeType this mt) ->
                   key ∈ mimeTypes this \/ (truthy mt = true /\ key = toString mt))).
  { intros mt. unfold registerMimeType.
    destruct (truthy mt) eqn:Ht; simpl;
      [destruct (bool_decide (toString mt ∈ mimeTypes this)) eqn:Hd; simpl|].
    - apply bool_decide_eq_true in Hd. repeat split; auto.
    - clear Hd. split; [apply union_subseteq_l|]. split; [repeat split|].
      split; [reflexivity|]. split.
      + intros _. apply elem_of_union_r, elem_of_singleton. reflexivity.
      + intros key Hk. apply elem_of_union in Hk as [Hk|Hk]; [auto|].
        apply elem_of_singleton in Hk. auto.
    - repeat split; auto. discriminate. }
  destruct (createNode this now isoNow options) as [[n bt]|e] eqn:Hc.
  2: { simpl. repeat split; auto; discriminate. }
  destruct (Hreg (mimeType (node_internal n))) as (H1 & H2 & H3 & H4 & H5).
  assert (Hgoal : forall r : Step (option Node),
             this_after r = registerMimeType this (mimeType (node_internal n)) ->
             mimeTypes this ⊆ mimeTypes (this_after r)
             /\ same_for_createNode this (this_after r)
             /\ schemaFields (this_after r) = schemaFields this
             /\ (forall node belongsTo,
                   Ok (n, bt) = Ok (node, belongsTo) ->
                   truthy (mimeType (node_internal node)) = true ->
                   toString (mimeType (node_internal node)) ∈ mimeTypes (this_after r))
             /\ (forall key, key ∈ mimeTypes (this_after r) ->
                   key ∈ mimeTypes this
                   \/ exists node belongsTo,
                        Ok (n, bt) = Ok (node, belongsTo)
                        /\ truthy (mimeType (node_internal node)) = true
                        /\ key = toString (mimeType (node_internal node)))).
  { intros r ->. repeat split; auto; try apply H2.
    - intros node belongsTo [= <- <-]. exact H4.
    - intros key Hk. destruct (H5 key Hk) as [?|[? ?]]; [auto|].
      right. exists n, bt. auto. }
  destruct (index_insert s (entry_of n bt)); [|now apply Hgoal].
  destruct (collection_insert _ (typeName this) n); now apply Hgoal.
Qed.



(** X9. [removeNode] of a stored identifier removes every node of the
    collection with that identifier and every index entry with the found
    node's [uid], leaves other collections alone and emits one change with
    the removed node as the old one; afterwards [getNode] finds nothing.
    For an identifier that is not stored it throws a [TypeError] and
    changes nothing. *)
Theorem removeNode_removes this s id :
  let r := removeNode this s id in
  (forall node,
      getNode this s id = Some node ->
      returned r = Ok tt
      /\ getNode this (store_after r) id = None
      /\ (forall n, In n (collection_of (store_after r) (typeName this)) <->
                    In n (collection_of s (typeName this))
                    /\ strict_eq (node_id n) id = false)
      /\ (forall e, In e (index (store_after r)) <->
                    In e (index s) /\ ie_uid e <> node_uid node)
      /\ (forall name, name <> typeName this ->
            collection_of (store_after r) name = collection_of s name)
      /\ effects r = [Change None (Some node)])
  /\ (getNode this s id = None ->
      returned r = Throw TypeError /\ store_after r = s /\ effects r = []).
Proof.
  cbv zeta. unfold removeNode. split.
  - intros node Hget. rewrite Hget. cbn [returned store_after effects].
    assert (Hcoll : collection_of
                      (with_collection
                         (with_index s (findAndRemove
                            (fun e => String.eqb (ie_uid e) (node_uid node)) (index s)))
                         (typeName this)
                         (findAndRemove (fun n => strict_eq (node_id n) id)
                            (collection_of s (typeName this))))
                      (typeName this)
                    = findAndRemove (fun n => strict_eq (node_id n) id)
                        (collection_of s (typeName this))).
    { rewrite collection_of_with_collection.
      destruct (decide (typeName this = typeName this)); [reflexivity | congruence]. }
    split; [reflexivity|]. split.
    { unfold getNode, findOne. rewrite Hcoll. apply find_filter_none. }
    split.
    { intros n. rewrite Hcoll. unfold findAndRemove. rewrite filter_In.
      now rewrite negb_true_iff. }
    split.
    { intros e. cbn [index with_collection with_index]. unfold findAndRemove.
      rewrite filter_In, negb_true_iff, String.eqb_neq. reflexivity. }
    split; [|reflexivity].
    intros name Hne. rewrite collection_of_with_collection.
    destruct (decide (typeName this = name)); [congruence | reflexivity].
  - intros Hget. rewrite Hget. auto.
Qed.

(** X10. With an index unique on [uid], removing a node right after
    [addNode] accepted it gives back the index and every collection as
    they were before the node was added. *)
Theorem addNode_then_removeNode this s now isoNow options node :
  In "uid" index_unique ->
  returned (addNode this s now isoNow options) = Ok (Some node) ->
  strict_eq (node_id node) (node_id node) = true ->
  let s1 := store_after (addNode this s now isoNow options) in
  let r := removeNode this s1 (node_id node) in
  returned r = Ok tt
  /\ index (store_after r) = index s
  /\ (forall name, collection_of (store_after r) name = collection_of s name)
  /\ effects r = [Change None (Some node)].
Proof.
  intros Hu Hret Hrefl s1 r.
  destruct (addNode_accepted _ _ _ _ _ _ Hret) as (bt & idx & nodes & Hc & Hi & Hn & Hs).
  fold s1 in Hs.
  pose proof (createNode_id_key _ _ _ _ _ _ Hc) as Hkey.
  pose proof (accepted_id_fresh _ _ _ Hn Hkey) as Hfresh.
  apply insert_unique_Ok in Hn as [-> _].
  apply insert_unique_Ok in Hi as [-> Hf].
  assert (Hget : getNode this s1 (node_id node) = Some node).
  { rewrite Hs.
    change (collection_of (with_index s (index s ++ [entry_of node bt])%list)
                          (typeName this))
      with (collection_of s (typeName this)) in Hfresh |- *.
    change (collection_of s (typeName this))
      with (collection_of (with_index s (index s ++ [entry_of node bt])%list)
                          (typeName this)).
    apply appended_node_found; assumption. }
  specialize (Hf "uid" Hu).
  subst r. unfold removeNode. rewrite Hget. cbn [returned store_after effects].
  split; [reflexivity|]. split; [|split; [|reflexivity]].
  - cbn [index with_collection with_index]. rewrite Hs.
    cbn [index with_collection with_index]. unfold findAndRemove.
    apply filter_app_last.
    + intros e He. apply negb_true_iff.
      destruct (String.eqb (ie_uid e) (node_uid node)) eqn:Heq; [|reflexivity].
      assert (Hex : existsb (fun d => same_key (entry_key "uid" d)
                                               (entry_key "uid" (entry_of node bt)))
                            (index s) = true).
      { apply existsb_exists. exists e. split; [assumption|].
        now rewrite same_uid_key. }
      congruence.
    + apply negb_false_iff. simpl. apply String.eqb_refl.
  - intros name. rewrite collection_of_with_collection.
    destruct (decide (typeName this = name)) as [<-|Hne].
    + change (collection_of (with_index ?a ?b) ?c) with (collection_of a c).
      rewrite Hs, collection_of_with_collection.
      destruct (decide (typeName this = typeName this)); [|congruence].
      unfold findAndRemove. apply filter_app_last.
      * intros n Hin. apply negb_true_iff. now apply Hfresh.
      * now apply negb_false_iff.
    + change (collection_of (with_index ?a ?b) ?c) with (collection_of a c).
      rewrite Hs, collection_of_with_collection.
      destruct (decide (typeName this = name)); [congruence | reflexivity].
Qed.

(** ** Updating a node *)

(** X11. A successful [updateNode] rewrites the path and the
    [belongsTo] of the index entry found by the node's [uid] to those of
    the updated node and of its normalised fields; the index keeps its
    length and its entries with another [uid]; one change is emitted with
    the updated node and the node as it was. *)
Theorem updateNode_syncs_index this s now1 now2 id options node' :
  returned (updateNode this s now1 now2 id options) = Ok node' ->
  let r := updateNode this s now1 now2 id options in
  exists old entry belongsTo,
    getNode this s id = Some old
    /\ findOne (fun e => String.eqb (ie_uid e) (node_uid old)) (index s) = Some entry
    /\ findOne (fun e => String.eqb (ie_uid e) (node_uid node')) (index (store_after r))
       = Some (assign_entry entry (node_path node') belongsTo)
    /\ (exists internal options',
          createInternals now1 (obj_get options "internal") = Ok internal
          /\ transformed options internal = Ok options'
          /\ processNodeFields this (obj_get options' "fields") (origin internal)
             = Ok (node_fields node', belongsTo))
    /\ length (index (store_after r)) = length (index s)
    /\ (forall e, ie_uid e <> node_uid old ->
                  (In e (index (store_after r)) <-> In e (index s)))
    /\ effects r = [Change (Some node') (Some old)].
Proof.
  intros Hret r. subst r. revert Hret. unfold updateNode.
  destruct (getNode this s id) as [old|] eqn:Hget; [|discriminate].
  destruct (createInternals now1 (obj_get options "internal")) as [i1|e1] eqn:Hi1;
    destruct (createInternals now2 (obj_get options "internal")) as [i2|e2] eqn:Hi2;
    try discriminate.
  cbv zeta.
  pose proof (createInternals_twice now1 now2 _ _ Hi1) as Htw.
  rewrite Hi2 in Htw. injection Htw as ->.
  cbn [node_internal assign_internal origin].
  destruct (transformed options i1) as [o'|e] eqn:Ht; [|discriminate].
  cbn [mbind Outcome_bind].
  destruct (processNodeFields this (obj_get o' "fields") (origin i1)) as [[f b]|e] eqn:Hp;
    [|discriminate].
  cbn [mbind Outcome_bind].
  match goal with
  | |- context [slug_or ?a ?b ?c] => destruct (slug_or a b c) as [slug|e]
  end; [|discriminate].
  match goal with
  | |- context [match ?m with Ok _ => _ | Throw _ => _ end] =>
      destruct m as [p|e]
  end; [|discriminate].
  destruct (findOne _ (index s)) as [entry|] eqn:Hf; [|discriminate].
  cbn [returned store_after effects]. intros [= <-].
  exists old, entry, b. cbn [node_uid assign_path_fields assign_internal
    assign_slug_content_excerpt assign_title_date node_path node_fields index with_index].
  split; [reflexivity|]. split; [exact Hf|]. split.
  { eapply findOne_assign_first; [exact Hf|]. simpl.
    apply findOne_matches in Hf. exact Hf. }
  split; [eauto|]. split; [apply assign_first_length|]. split; [|reflexivity].
  intros e He. apply assign_first_In_other.
  - now apply String.eqb_neq.
  - simpl. apply findOne_matches in Hf. exact Hf.
Qed.

(** X12. [updateNode] of an identifier that is not stored, or with the
    [internal] option null, throws a [TypeError] and changes nothing. *)
Theorem updateNode_unknown_or_null this s now1 now2 id options :
  getNode this s id = None \/ obj_get options "internal" = JNull ->
  let r := updateNode this s now1 now2 id options in
  returned r = Throw TypeError /\ store_after r = s /\ effects r = [].
Proof.
  intros H r. subst r. unfold updateNode.
  destruct (getNode this s id) as [old|]; destruct H as [H|H]; try discriminate;
    try (repeat split; reflexivity).
  rewrite H. simpl. repeat split; reflexivity.
Qed.

(** X13. Whenever [updateNode] throws, no event is emitted, the index
    is as it was, other collections are as they were and no collection
    has gained or lost a node. *)
Theorem updateNode_failure this s now1 now2 id options e :
  returned (updateNode this s now1 now2 id options) = Throw e ->
  let r := updateNode this s now1 now2 id options in
  effects r = []
  /\ index (store_after r) = index s
  /\ (forall name, name <> typeName this ->
        collection_of (store_after r) name = collection_of s name)
  /\ (forall name, length (collection_of (store_after r) name)
                   = length (collection_of s name)).
Proof.
  intros Hret r. subst r. revert Hret. unfold updateNode.
  assert (Hst : forall n,
    index (store_node this s id n) = index s
    /\ (forall name, name <> typeName this ->
          collection_of (store_node this s id n) name = collection_of s name)
    /\ (forall name, length (collection_of (store_node this s id n) name)
                     = length (collection_of s name))).
  { intros n. unfold store_node. split; [reflexivity|]. split.
    - intros name Hne. rewrite collection_of_with_collection.
      destruct (decide (typeName this = name)); congruence.
    - intros name. rewrite collection_of_with_collection.
      destruct (decide (typeName this = name)) as [<-|]; [|reflexivity].
      apply assign_first_length. }
  destruct (getNode this s id) as [old|] eqn:Hget; [|intros _; simpl; auto].
  destruct (createInternals now1 (obj_get options "internal")) as [i1|e1];
    destruct (createInternals now2 (obj_get options "internal")) as [i2|e2];
    try (intros _; simpl; auto; fail).
  cbv zeta.
  match goal with
  | |- context [match ?m with Ok _ => _ | Throw _ => _ end] =>
      destruct m as [[o' [f b]]|e']
  end; [|intros _; cbn [thrown effects store_after]; split; [reflexivity|apply Hst]].
  match goal with
  | |- context [slug_or ?a ?b ?c] => destruct (slug_or a b c) as [slug|e']
  end; [|intros _; cbn [thrown effects store_after]; split; [reflexivity|apply Hst]].
  match goal with
  | |- context [match ?m with Ok _ => _ | Throw _ => _ end] =>
      destruct m as [p|e']
  end; [|intros _; cbn [thrown effects store_after]; split; [reflexivity|apply Hst]].
  destruct (findOne _ (index s)) as [entry|]; [discriminate|].
  intros _; cbn [thrown effects store_after]; split; [reflexivity|apply Hst].
Qed.

(** X14. [updateNode] with raw content of a mime type that has no
    transformer throws [No transformer for <mimeType> is installed.]
    after the stored node's [internal] was overwritten: the stored node
    has the new origin, mime type, content and timestamp although the
    update failed. *)
Theorem updateNode_missing_transformer this s now1 now2 id options old :
  getNode this s id = Some old ->
  let internal := obj_get options "internal" in
  truthy (get internal "content") = true ->
  truthy (get internal "mimeType") = true ->
  transformers (toString (get internal "mimeType")) = None ->
  let r := updateNode this s now1 now2 id options in
  returned r = Throw (Error ("No transformer for " +:+ toString (get internal "mimeType")
                             +:+ " is installed."))
  /\ getNode this (store_after r) id
     = Some (assign_internal old
               {| origin := get internal "origin"; mimeType := get internal "mimeType";
                  content := get internal "content"; timestamp := now2 |})
  /\ effects r = [].
Proof.
  intros Hget internal Hc Hm Hnone r. subst r internal. unfold updateNode. rewrite Hget.
  destruct (get_null_or_undefined_falsy _ _ Hc) as [Hnull _].
  assert (Hi : forall now, createInternals now (obj_get options "internal") =
                 Ok {| origin := get (obj_get options "internal") "origin";
                       mimeType := get (obj_get options "internal") "mimeType";
                       content := get (obj_get options "internal") "content";
                       timestamp := now |}).
  { intros now. unfold createInternals. destruct (obj_get options "internal"); congruence. }
  rewrite !Hi. cbv zeta. unfold transformed. cbn [content mimeType]. rewrite Hc, Hm.
  cbn [andb]. unfold transformNodeOptions, transform. cbn [mimeType]. rewrite Hnone.
  cbn [mbind Outcome_bind thrown returned store_after effects].
  split; [reflexivity|]. split; [|reflexivity].
  unfold getNode, store_node. rewrite collection_of_with_collection.
  destruct (decide (typeName this = typeName this)); [|congruence].
  unfold getNode in Hget.
  eapply findOne_assign_first; [exact Hget|].
  apply findOne_matches in Hget. exact Hget.
Qed.

(** X15. Without a string [path] option (after the transformer),
    [updateNode] computes the path by [makePath] from the node that still
    has its previous fields and its previous path, the new fields being
    assigned afterwards; with one, the path is ["/"] and the option without
    leading slashes. [withPath] keeps its value either way. *)
Theorem updateNode_path_from_previous_fields this s now1 now2 id options node' :
  returned (updateNode this s now1 now2 id options) = Ok node' ->
  exists old internal options',
    getNode this s id = Some old
    /\ createInternals now1 (obj_get options "internal") = Ok internal
    /\ transformed options internal = Ok options'
    /\ match obj_get options' "path" with
       | JStr path => node_path node' = explicitPath path
       | _ => makePath this (node_props (before_path_update node' old))
              = Ok (node_path node')
       end
    /\ node_withPath node' = node_withPath old.
Proof.
  unfold updateNode.
  destruct (getNode this s id) as [old|] eqn:Hget; [|discriminate].
  destruct (createInternals now1 (obj_get options "internal")) as [i1|e1] eqn:Hi1;
    destruct (createInternals now2 (obj_get options "internal")) as [i2|e2] eqn:Hi2;
    try discriminate.
  cbv zeta.
  destruct (transformed options i1) as [o'|e] eqn:Ht; [|discriminate].
  cbn [mbind Outcome_bind].
  match goal with
  | |- context [processNodeFields ?a ?b ?c] =>
      destruct (processNodeFields a b c) as [[f b']|e]
  end; [|discriminate].
  cbn [mbind Outcome_bind].
  match goal with
  | |- context [slug_or ?a ?b ?c] => destruct (slug_or a b c) as [slug|e]
  end; [|discriminate].
  match goal with
  | |- context [match ?m with Ok _ => _ | Throw _ => _ end] =>
      destruct m as [p|e] eqn:Hpath
  end; [|discriminate].
  destruct (findOne _ (index s)) as [entry|] eqn:Hf; [|discriminate].
  cbn [returned]. intros [= <-].
  exists old, i1, o'. repeat (split; [reflexivity || assumption|]).
  split; [|reflexivity].
  destruct (obj_get o' "path"); try exact Hpath.
  injection Hpath as <-. reflexivity.
Qed.

(** ** Declared references and registrations *)

Lemma processRefField_has_key typeName id bt :
  exists ids, processRefField typeName id bt !! toString typeName = Some ids.
Proof. unfold processRefField; cbv zeta. rewrite lookup_insert_eq. eauto. Qed.

Lemma processRefField_keeps_key typeName id bt a :
  (exists ids, bt !! a = Some ids) ->
  exists ids, processRefField typeName id bt !! a = Some ids.
Proof.
  intros [ids H]. unfold processRefField; cbv zeta.
  destruct (decide (toString typeName = a)) as [<-|Hne].
  - rewrite lookup_insert_eq. eauto.
  - rewrite lookup_insert_ne by assumption. eauto.
Qed.

Lemma processDeclaredRefs_keeps_key declared fields bt bt' a :
  processDeclaredRefs declared fields bt = Ok bt' ->
  (exists ids, bt !! a = Some ids) -> exists ids, bt' !! a = Some ids.
Proof.
  revert bt. induction declared as [|[f o] r IH]; intros bt; simpl.
  - intros [= <-]. auto.
  - intros H. apply bind_Ok in H as (t & Ht & H). intros Hk.
    apply (IH _ H). now apply processRefField_keeps_key.
Qed.

Lemma get_checked_Ok v k t :
  get_checked v k = Ok t -> v <> JNull /\ v <> JUndefined /\ t = get v k.
Proof. destruct v; simpl; intros [= <-]; repeat split; congruence. Qed.

Lemma processDeclaredRefs_records declared fields bt bt' fieldName options :
  processDeclaredRefs declared fields bt = Ok bt' ->
  In (fieldName, options) declared ->
  options <> JNull /\ options <> JUndefined
  /\ (exists ids, bt' !! toString (get options "typeName") = Some ids)
  /\ (forall id, In id (as_list (obj_get fields fieldName)) ->
        recorded bt' (toString (get options "typeName")) (toString id)).
Proof.
  revert bt. induction declared as [|[f o] r IH]; intros bt; simpl; [contradiction|].
  intros H Hin. apply bind_Ok in H as (t & Ht & H).
  destruct Hin as [[= -> ->]|Hin]; [|eauto].
  apply get_checked_Ok in Ht as (Hn & Hu & ->).
  split; [assumption|]. split; [assumption|]. split.
  - eapply processDeclaredRefs_keeps_key; [exact H|]. apply processRefField_has_key.
  - intros id Hid. eapply processDeclaredRefs_mono; [exact H|].
    now apply processRefField_records.
Qed.

Lemma obj_get_absent (o : Obj) (k : string) : obj_has o k = false -> obj_get o k = JUndefined.
Proof.
  induction o as [|[k' v] r IH]; simpl; [reflexivity|].
  destruct (String.eqb k' k); simpl; [discriminate | exact IH].
Qed.

Lemma obj_set_fresh (o : Obj) (k : string) (v : JsVal) :
  obj_has o k = false -> obj_set o k v = (o ++ [(k, v)])%list.
Proof.
  induction o as [|[k0 v0] r IH]; simpl; [reflexivity|].
  destruct (String.eqb k0 k); simpl; [discriminate|]. intros H. now rewrite IH.
Qed.

Lemma In_obj_set_new (o : Obj) (k : string) (v : JsVal) : In (k, v) (obj_set o k v).
Proof.
  induction o as [|[k0 v0] r IH]; simpl; [auto|].
  destruct (String.eqb k0 k) eqn:Hk; simpl; [|auto].
  apply String.eqb_eq in Hk as ->. auto.
Qed.

Lemma processDeclaredRefs_app (d1 d2 : Obj) fields bt :
  processDeclaredRefs (d1 ++ d2)%list fields bt
  = (bt1 ← processDeclaredRefs d1 fields bt; processDeclaredRefs d2 fields bt1).
Proof.
  revert bt. induction d1 as [|[f o] r IH]; intros bt; simpl; [reflexivity|].
  destruct (get_checked o "typeName"); simpl; [apply IH | reflexivity].
Qed.

Lemma same_for_createNode_eq this this' now isoNow options :
  same_for_createNode this this' ->
  createNode this' now isoNow options = createNode this now isoNow options.
Proof.
  intros (Ht & Hr & Hk & Hm & Ha).
  unfold createNode, processNodeFields, makePath. rewrite Ht, Hr, Hk, Hm, Ha. reflexivity.
Qed.

(** X16. For every reference declared on the collection,
    [processNodeFields] records under the declared type name each
    identifier of the normalised field of that name, as a string; the type
    name gets an entry even for an empty list, and a field that is absent
    records the identifier ["undefined"]. *)
Theorem declared_refs_recorded this input origin fields belongsTo :
  processNodeFields this input origin = Ok (fields, belongsTo) ->
  forall fieldName options,
    In (fieldName, options) (refs this) ->
    options <> JNull /\ options <> JUndefined
    /\ (exists ids, belongsTo !! toString (get options "typeName") = Some ids)
    /\ (forall id, In id (as_list (obj_get fields fieldName)) ->
          recorded belongsTo (toString (get options "typeName")) (toString id))
    /\ (obj_has fields fieldName = false ->
          recorded belongsTo (toString (get options "typeName")) "undefined").
Proof.
  intros H fieldName options Hin. unfold processNodeFields in H.
  match type of H with
  | context [processFields ?a ?b ?c ?d] => destruct (processFields a b c d) as [f bt]
  end.
  apply bind_Ok in H as (bt' & Hd & H). injection H as <- <-.
  destruct (processDeclaredRefs_records _ _ _ _ _ _ Hd Hin) as (Hn & Hu & Hk & Hr).
  repeat (split; [assumption|]).
  intros Habs. apply (Hr JUndefined). rewrite (obj_get_absent _ _ Habs). now left.
Qed.

(** X17. When a declared reference has null or undefined for its
    options, [processNodeFields] throws a [TypeError], whatever the
    input. *)
Theorem declared_ref_without_options this input origin fieldName options :
  In (fieldName, options) (refs this) ->
  options = JNull \/ options = JUndefined ->
  processNodeFields this input origin = Throw TypeError.
Proof.
  intros Hin Hopt. unfold processNodeFields.
  match goal with
  | |- context [processFields ?a ?b ?c ?d] => destruct (processFields a b c d) as [f bt]
  end.
  assert (Hd : forall bt, processDeclaredRefs (refs this) f bt = Throw TypeError).
  { revert Hin. generalize (refs this). intros declared.
    induction declared as [|[k o] r IH]; simpl; [contradiction|].
    intros [[= -> ->]|Hin] bt0.
    - destruct Hopt as [-> | ->]; reflexivity.
    - destruct o; simpl; auto. }
  rewrite Hd. reflexivity.
Qed.

(** X18. After [addReference(fieldName, options)] the normaliser
    records the identifiers of the field named [camelCase(fieldName)] under
    [options.typeName]; when no reference was declared under that name
    before, the fields are those of the collection without the reference
    and [belongsTo] is its [belongsTo] with that one reference recorded
    last. *)
Theorem addReference_then_processNodeFields this fieldName options input origin
    fields belongsTo :
  processNodeFields (addReference this fieldName options) input origin
  = Ok (fields, belongsTo) ->
  (forall id, In id (as_list (obj_get fields (camelCase fieldName))) ->
     recorded belongsTo (toString (get options "typeName")) (toString id))
  /\ (obj_has (refs this) (camelCase fieldName) = false ->
      exists belongsTo0,
        processNodeFields this input origin = Ok (fields, belongsTo0)
        /\ belongsTo = processRefField (get options "typeName")
                         (obj_get fields (camelCase fieldName)) belongsTo0).
Proof.
  intros H. unfold processNodeFields in *.
  change (resolveAbsolutePaths (addReference this fieldName options))
    with (resolveAbsolutePaths this) in H.
  change (refs (addReference this fieldName options))
    with (obj_set (refs this) (camelCase fieldName) options) in H.
  match type of H with
  | context [processFields ?a ?b ?c ?d] => destruct (processFields a b c d) as [f bt]
  end.
  apply bind_Ok in H as (bt' & Hd & H). injection H as <- <-. split.
  - intros id Hid.
    destruct (processDeclaredRefs_records _ _ _ _ _ _ Hd
                (In_obj_set_new (refs this) (camelCase fieldName) options))
      as (_ & _ & _ & Hr).
    now apply Hr.
  - intros Hfresh. rewrite (obj_set_fresh _ _ _ Hfresh), processDeclaredRefs_app in Hd.
    apply bind_Ok in Hd as (bt0 & Hd0 & Hd). exists bt0. rewrite Hd0. split; [reflexivity|].
    simpl in Hd. apply bind_Ok in Hd as (t & Ht & [= <-]).
    apply get_checked_Ok in Ht as (_ & _ & ->). reflexivity.
Qed.

(** X19. [createNode] answers the same after [addSchemaField] and
    after a mime type was registered; [addSchemaField] and [addReference]
    store the options under the camel-cased field name and leave the
    other map as it was. *)
Theorem registrations_frame this fieldName options mimeType
    now isoNow nodeOptions :
  createNode (addSchemaField this fieldName options) now isoNow nodeOptions
  = createNode this now isoNow nodeOptions
  /\ createNode (registerMimeType this mimeType) now isoNow nodeOptions
     = createNode this now isoNow nodeOptions
  /\ refs (addSchemaField this fieldName options) = refs this
  /\ obj_get (schemaFields (addSchemaField this fieldName options)) (camelCase fieldName)
     = options
  /\ schemaFields (addReference this fieldName options) = schemaFields this
  /\ obj_get (refs (addReference this fieldName options)) (camelCase fieldName) = options.
Proof.
  split; [apply same_for_createNode_eq; repeat split|].
  split.
  { apply same_for_createNode_eq. unfold registerMimeType.
    destruct (_ && _); repeat split. }
  split; [reflexivity|]. split; [apply obj_get_set_eq|].
  split; [reflexivity|]. apply obj_get_set_eq.
Qed.

(** ** Normalised fields *)

Lemma obj_set_keys (o : Obj) (key k : string) (v : JsVal) :
  In k (List.map fst (obj_set o key v)) <-> k = key \/ In k (List.map fst o).
Proof.
  induction o as [|[k0 v0] r IH]; simpl.
  - intuition.
  - destruct (String.eqb k0 key) eqn:Hk; simpl.
    + apply String.eqb_eq in Hk as ->. intuition.
    + rewrite IH. intuition.
Qed.

Lemma obj_set_NoDup (o : Obj) (key : string) (v : JsVal) :
  List.NoDup (List.map fst o) -> List.NoDup (List.map fst (obj_set o key v)).
Proof.
  induction o as [|[k0 v0] r IH]; simpl; intros H.
  - constructor; [intros []|constructor].
  - inversion H as [|? ? Hn Hr]; subst.
    destruct (String.eqb k0 key) eqn:Hk; simpl.
    + constructor; assumption.
    + constructor; [|auto]. rewrite obj_set_keys. intros [->|Hin]; [|contradiction].
      rewrite String.eqb_refl in Hk. discriminate.
Qed.

Lemma each_prop_keys ra origin (ps : list (string * JsVal)) res bt :
  List.NoDup (List.map fst res) ->
  List.NoDup (List.map fst (fst (each_prop ra origin ps res bt)))
  /\ forall k, In k (List.map fst (fst (each_prop ra origin ps res bt))) <->
       In k (List.map fst res)
       \/ exists key, In key (List.map fst ps) /\ k = written_key key.
Proof.
  revert res bt. induction ps as [|[key value] r IH]; intros res bt Hnd.
  - simpl. split; [assumption|]. intros k. split; [auto|]. intros [H|(key & [] & _)]. exact H.
  - rewrite each_prop_cons.
    destruct (processEntry_fst ra origin key value res bt) as [value' Hfst].
    rewrite Hfst.
    destruct (IH (obj_set res (written_key key) value')
                 (snd (processEntry ra origin key value res bt))
                 (obj_set_NoDup _ _ _ Hnd)) as [Hnd' Hkeys].
    split; [assumption|]. intros k. rewrite Hkeys, obj_set_keys. simpl. split.
    + intros [[->|H]|(key' & Hin & ->)]; eauto.
    + intros [H|(key' & [<-|Hin] & ->)]; eauto.
Qed.

Lemma each_item_keys ra origin (l : list JsVal) i res bt :
  forall k, In k (List.map fst (fst (each_item ra origin l i res bt))) <->
    In k (List.map fst res)
    \/ exists j, (i <= j < i + length l)%nat /\ k = createKey (Str.of_nat j).
Proof.
  revert i res bt. induction l as [|value r IH]; intros i res bt k.
  - simpl. split; [auto|]. intros [H|(j & Hj & _)]; [exact H | lia].
  - rewrite each_item_cons.
    destruct (processEntry_fst ra origin (Str.of_nat i) value res bt) as [value' Hfst].
    rewrite Hfst, IH, obj_set_keys. unfold written_key.
    rewrite of_nat_not_internal. simpl. split.
    + intros [[->|H]|(j & Hj & ->)]; [right; exists i; split; [lia|reflexivity] | auto |].
      right. exists j. split; [lia|reflexivity].
    + intros [H|(j & Hj & ->)]; [auto|].
      destruct (Nat.eq_dec j i) as [->|Hne]; [auto|].
      right. exists j. split; [lia|reflexivity].
Qed.

Lemma each_prop_app ra origin (p1 p2 : list (string * JsVal)) res bt :
  each_prop ra origin (p1 ++ p2)%list res bt
  = each_prop ra origin p2 (fst (each_prop ra origin p1 res bt))
              (snd (each_prop ra origin p1 res bt)).
Proof.
  revert res bt. induction p1 as [|[k v] r IH]; intros res bt.
  - reflexivity.
  - change (((k, v) :: r) ++ p2)%list with ((k, v) :: (r ++ p2))%list.
    rewrite !each_prop_cons. apply IH.
Qed.

Lemma map_items_shape ra origin (items : list JsVal) bt :
  length (fst (map_items ra origin items bt)) = length items
  /\ forall i x, items !! i = Some x ->
       exists bt', fst (map_items ra origin items bt) !! i
                   = Some (fst (processField ra origin x bt')).
Proof.
  revert bt. induction items as [|x r IH]; intros bt.
  - split; [reflexivity|]. intros i x. rewrite lookup_nil. discriminate.
  - cbn [map_items].
    destruct (processField ra origin x bt) as [x' bt1] eqn:Hx.
    destruct (map_items ra origin r bt1) as [r' bt2] eqn:Hr.
    cbn [fst]. destruct (IH bt1) as [Hlen Hnth]. rewrite Hr in Hlen, Hnth. cbn [fst] in *.
    split; [simpl; now rewrite Hlen|].
    intros [|i] y; simpl.
    + intros [= <-]. exists bt. now rewrite Hx.
    + apply Hnth.
Qed.

(** X20. The normalised fields of an object have no key twice, and
    their keys are exactly the written keys of the input's keys: the key
    itself when it begins with ["__"], [createKey] of it otherwise. *)
Theorem processFields_keys ra origin (props : list (string * JsVal)) bt :
  let res := fst (processFields ra origin (JObj props) bt) in
  List.NoDup (List.map fst res)
  /\ forall k, In k (List.map fst res) <->
       exists key, In key (List.map fst props) /\ k = written_key key.
Proof.
  cbv zeta. rewrite processFields_obj.
  destruct (each_prop_keys ra origin props [] bt) as [Hnd Hkeys]; [constructor|].
  split; [assumption|]. intros k. rewrite Hkeys. simpl. tauto.
Qed.

(** X21. A field that is neither an object nor a list, under a key
    that does not begin with ["__"] and whose written key no later key
    shares, is found under [createKey] of its key: as it was, except that
    a string that is a resolvable path is replaced by what
    [app.resolveFilePath(origin, path, resolveAbsolutePaths)] answers. *)
Theorem processFields_scalar_field ra origin props p1 key value p2 bt :
  props = (p1 ++ (key, value) :: p2)%list ->
  Str.startsWith "__" key = false ->
  isObject value = false ->
  (forall k, In k (List.map fst p2) -> written_key k <> createKey key) ->
  obj_get (fst (processFields ra origin (JObj props) bt)) (createKey key)
  = match value with
    | JStr s => if isResolvablePath s then app_resolveFilePath origin s ra else value
    | _ => value
    end.
Proof.
  intros -> Hkey Hobj Hlater. rewrite processFields_obj, each_prop_app, each_prop_cons.
  rewrite each_prop_get_other by assumption.
  rewrite processEntry_value by (assumption || (destruct value; simpl in *; congruence)).
  cbn [fst]. rewrite obj_get_set_eq.
  destruct value; try reflexivity; discriminate.
Qed.

(** X22. A list under a key stays a list of the same length, but a
    list inside it is returned as an object whose keys are [createKey] of
    the positions of its elements. *)
Theorem list_in_list_becomes_object ra origin key (outer : list JsVal) res bt :
  Str.startsWith "__" key = false ->
  exists items',
    fst (processEntry ra origin key (JArr outer) res bt)
    = obj_set res (createKey key) (JArr items')
    /\ length items' = length outer
    /\ forall i inner, outer !! i = Some (JArr inner) ->
         exists o, items' !! i = Some (JObj o)
           /\ forall k, In k (List.map fst o) <->
                exists j, (j < length inner)%nat /\ k = createKey (Str.of_nat j).
Proof.
  intros Hkey. rewrite processEntry_array by assumption. cbn [fst].
  exists (fst (map_items ra origin outer bt)). split; [reflexivity|].
  destruct (map_items_shape ra origin outer bt) as [Hlen Hnth].
  split; [assumption|]. intros i inner Hi.
  destruct (Hnth _ _ Hi) as [bt' ->].
  unfold processField. cbn [processField_with].
  fold (processFields ra origin).
  destruct (processFields ra origin (JArr inner) (registerRef (JArr inner) bt'))
    as [o bt2] eqn:Ho.
  exists o. split; [reflexivity|]. intros k.
  assert (Hfst : o = fst (processFields ra origin (JArr inner)
                            (registerRef (JArr inner) bt'))) by now rewrite Ho.
  rewrite Hfst, processFields_arr, each_item_keys. simpl. split.
  - intros [[]|(j & Hj & ->)]. exists j. split; [lia|reflexivity].
  - intros (j & Hj & ->). right. exists j. split; [lia|reflexivity].
Qed.

(** ** Route parameters *)

Lemma append_length (a b : string) :
  String.length (a +:+ b) = (String.length a + String.length b)%nat.
Proof. induction a as [|c a IH]; simpl; [reflexivity | now rewrite IH]. Qed.

Lemma raw_suffix_not_date_part (k : string) :
  k +:+ "_raw" <> "year" /\ k +:+ "_raw" <> "month" /\ k +:+ "_raw" <> "day".
Proof.
  repeat split; intros H;
    pose proof (f_equal String.length H) as Hlen;
    rewrite append_length in Hlen; simpl in Hlen;
    destruct k as [|c0 [|c1 k]]; simpl in *; try discriminate; lia.
Qed.

Lemma In_obj_set (o : Obj) (k k' : string) (v v' : JsVal) :
  In (k', v') (obj_set o k v) -> In (k', v') o \/ (k' = k /\ v' = v).
Proof.
  induction o as [|[k0 v0] r IH]; simpl.
  - intros [[= <- <-]|[]]. auto.
  - destruct (String.eqb k0 k) eqn:Hk; simpl.
    + apply String.eqb_eq in Hk as ->. intros [[= <- <-]|H]; auto.
    + intros [H|H]; auto. destruct (IH H); auto.
Qed.

Lemma routeParam_sets_date_part node keyName params params' part :
  routeParam node keyName params = Ok params' ->
  date_part node keyName = Some part ->
  obj_get params' keyName = JStr part.
Proof.
  unfold routeParam, date_part; cbv zeta.
  destruct (String.eqb keyName "year") eqn:Hy.
  { apply String.eqb_eq in Hy as ->. intros [= <-] [= <-]. apply obj_get_set_eq. }
  destruct (String.eqb keyName "month") eqn:Hm.
  { apply String.eqb_eq in Hm as ->. intros [= <-] [= <-]. apply obj_get_set_eq. }
  destruct (String.eqb keyName "day") eqn:Hd; [|discriminate].
  apply String.eqb_eq in Hd as ->. intros [= <-] [= <-]. apply obj_get_set_eq.
Qed.

Lemma routeParam_keeps_date_part node keyName params params' key part :
  routeParam node keyName params = Ok params' ->
  date_part node key = Some part ->
  obj_get params key = JStr part ->
  obj_get params' key = JStr part.
Proof.
  intros H Hpart Hget.
  destruct (String.eqb keyName key) eqn:Hk.
  { apply String.eqb_eq in Hk as ->. eapply routeParam_sets_date_part; eauto. }
  apply String.eqb_neq in Hk.
  assert (Hraw : keyName +:+ "_raw" <> key).
  { destruct (raw_suffix_not_date_part keyName) as (H1 & H2 & H3).
    unfold date_part in Hpart.
    destruct (String.eqb key "year") eqn:Hy; [apply String.eqb_eq in Hy; congruence|].
    destruct (String.eqb key "month") eqn:Hm; [apply String.eqb_eq in Hm; congruence|].
    destruct (String.eqb key "day") eqn:Hd; [apply String.eqb_eq in Hd; congruence|].
    discriminate. }
  revert H. unfold routeParam; cbv zeta.
  destruct (String.eqb keyName "year") eqn:Hy.
  { apply String.eqb_eq in Hy as ->. intros [= <-]. now rewrite obj_get_set_ne. }
  destruct (String.eqb keyName "month") eqn:Hm.
  { apply String.eqb_eq in Hm as ->. intros [= <-]. now rewrite obj_get_set_ne. }
  destruct (String.eqb keyName "day") eqn:Hd.
  { apply String.eqb_eq in Hd as ->. intros [= <-]. now rewrite obj_get_set_ne. }
  match goal with |- context [if ?c then _ else _] => destruct c end.
  { intros [= <-]. now rewrite obj_get_set_ne. }
  match goal with |- context [if ?c then _ else _] => destruct c end.
  - intros H. apply bind_Ok in H as (slug & _ & [= <-]).
    rewrite obj_get_set_ne by assumption. now rewrite obj_get_set_ne.
  - intros [= <-]. assumption.
Qed.

Lemma routeParams_keeps_date_part node keys params params' key part :
  routeParams node keys params = Ok params' ->
  date_part node key = Some part ->
  obj_get params key = JStr part ->
  obj_get params' key = JStr part.
Proof.
  revert params. induction keys as [|k r IH]; intros params; simpl.
  - intros [= <-]. auto.
  - intros H. apply bind_Ok in H as (p1 & H1 & H). intros Hp Hg.
    eapply IH; eauto using routeParam_keeps_date_part.
Qed.

Lemma routeParams_date_part node keys params params' key part :
  routeParams node keys params = Ok params' ->
  In key keys -> date_part node key = Some part ->
  obj_get params' key = JStr part.
Proof.
  revert params. induction keys as [|k r IH]; intros params; simpl; [contradiction|].
  intros H. apply bind_Ok in H as (p1 & H1 & H). intros [->|Hin] Hp.
  - eapply routeParams_keeps_date_part; eauto using routeParam_sets_date_part.
  - eauto.
Qed.

Lemma routeParam_params node keyName params params' key value :
  routeParam node keyName params = Ok params' ->
  In (key, value) params' ->
  In (key, value) params
  \/ ((exists s, value = JStr s) /\ (key = keyName \/ key = keyName +:+ "_raw")).
Proof.
  unfold routeParam; cbv zeta.
  destruct (String.eqb keyName "year") eqn:Hy.
  { apply String.eqb_eq in Hy as ->. intros [= <-] Hin.
    apply In_obj_set in Hin as [|[-> ->]]; eauto 6. }
  destruct (String.eqb keyName "month") eqn:Hm.
  { apply String.eqb_eq in Hm as ->. intros [= <-] Hin.
    apply In_obj_set in Hin as [|[-> ->]]; eauto 6. }
  destruct (String.eqb keyName "day") eqn:Hd.
  { apply String.eqb_eq in Hd as ->. intros [= <-] Hin.
    apply In_obj_set in Hin as [|[-> ->]]; eauto 6. }
  match goal with |- context [if ?c then _ else _] => destruct c end.
  { intros [= <-] Hin. apply In_obj_set in Hin as [|[-> ->]]; eauto 6. }
  match goal with |- context [if ?c then _ else _] => destruct c end.
  - intros H. apply bind_Ok in H as (slug & _ & [= <-]). intros Hin.
    apply In_obj_set in Hin as [Hin|[-> ->]]; [|eauto 6].
    apply In_obj_set in Hin as [|[-> ->]]; eauto 6.
  - intros [= <-]. auto.
Qed.

Lemma routeParams_params node keys params params' key value :
  routeParams node keys params = Ok params' ->
  In (key, value) params' ->
  In (key, value) params
  \/ ((exists s, value = JStr s)
      /\ exists k, In k keys /\ (key = k \/ key = k +:+ "_raw")).
Proof.
  revert params. induction keys as [|k r IH]; intros params; simpl.
  - intros [= <-]. auto.
  - intros H Hin. apply bind_Ok in H as (p1 & H1 & H).
    destruct (IH _ H Hin) as [Hp1|(Hs & k' & Hk' & Hkey)].
    + destruct (routeParam_params _ _ _ _ _ _ H1 Hp1) as [|[Hs Hkey]]; [auto|].
      right. split; [assumption|]. exists k. auto.
    + right. split; [assumption|]. exists k'. auto.
Qed.


(** X23. The path [makePath] answers is the route applied to
    parameters in which every route key [year], [month] and [day] holds
    the date of the node formatted [YYYY], [MM] and [DD], whatever field
    of that name the node has; every parameter is a string, under a route
    key or a route key followed by [_raw]. *)
Theorem makePath_route_params this node path :
  makePath this node = Ok path ->
  exists params,
    path = options_makePath this params
    /\ (forall key part, In key (routeKeys this) -> date_part node key = Some part ->
          obj_get params key = JStr part)
    /\ (forall key value, In (key, value) params ->
          (exists s, value = JStr s)
          /\ exists k, In k (routeKeys this) /\ (key = k \/ key = k +:+ "_raw")).
Proof.
  unfold makePath. intros H. apply bind_Ok in H as (params & Hp & [= <-]).
  exists params. split; [reflexivity|]. split.
  - intros key part Hin Hd. eapply routeParams_date_part; eauto.
  - intros key value Hin.
    destruct (routeParams_params _ _ _ _ _ _ Hp Hin) as [[]|]; assumption.
Qed.


(** ** Type inference *)

Lemma fields_set_In (fields : list (string * FieldConfig)) key type k t :
  In (k, t) (fields_set fields key type) -> (k = key /\ t = type) \/ In (k, t) fields.
Proof.
  induction fields as [|[k0 t0] r IH]; simpl.
  - intros [[= <- <-]|[]]. auto.
  - destruct (String.eqb k0 key) eqn:Hk; simpl.
    + apply String.eqb_eq in Hk as ->. intros [[= <- <-]|H]; auto.
    + intros [H|H]; auto. destruct (IH H); auto.
Qed.

Lemma fields_set_keys (fields : list (string * FieldConfig)) key type k :
  In k (List.map fst (fields_set fields key type)) <-> k = key \/ In k (List.map fst fields).
Proof.
  induction fields as [|[k0 t0] r IH]; simpl.
  - intuition.
  - destruct (String.eqb k0 key) eqn:Hk; simpl.
    + apply String.eqb_eq in Hk as ->. intuition.
    + rewrite IH. intuition.
Qed.

Lemma fields_set_NoDup (fields : list (string * FieldConfig)) key type :
  List.NoDup (List.map fst fields) -> List.NoDup (List.map fst (fields_set fields key type)).
Proof.
  induction fields as [|[k0 t0] r IH]; simpl; intros H.
  - constructor; [intros []|constructor].
  - inversion H as [|? ? Hn Hr]; subst.
    destruct (String.eqb k0 key) eqn:Hk; simpl.
    + constructor; assumption.
    + constructor; [|auto]. rewrite fields_set_keys. intros [->|Hin]; [|contradiction].
      rewrite String.eqb_refl in Hk. discriminate.
Qed.

Lemma fields_get_set (fields : list (string * FieldConfig)) key type k :
  fields_get (fields_set fields key type) k
  = if String.eqb key k then Some type else fields_get fields k.
Proof.
  induction fields as [|[k0 t0] r IH]; simpl.
  - reflexivity.
  - destruct (String.eqb k0 key) eqn:Hk; simpl.
    + apply String.eqb_eq in Hk as ->. destruct (String.eqb key k); reflexivity.
    + rewrite IH. destruct (String.eqb k0 k) eqn:Hk0; [|reflexivity].
      apply String.eqb_eq in Hk0 as ->. now rewrite String.eqb_sym, Hk.
Qed.

Lemma inferNodeFields_from (nodes : list Node) nodeType node nodeFields fields :
  In node nodes -> (forall kv, In kv nodeFields -> In kv (node_fields node)) ->
  inferred_from nodes nodeType fields ->
  inferred_from nodes nodeType (inferNodeFields nodeFields nodeType fields).
Proof.
  intros Hnode. revert fields.
  induction nodeFields as [|[k v] r IH]; intros fields Hsub Hinv; simpl; [assumption|].
  apply IH; [intros kv Hkv; apply Hsub; now right|].
  destruct (inferType v k nodeType) as [t|] eqn:Ht; [|assumption].
  destruct Hinv as [Hnd Hfrom]. split; [now apply fields_set_NoDup|].
  intros key type Hin. apply fields_set_In in Hin as [[-> ->]|Hin]; [|auto].
  exists node, v. split; [assumption|]. split; [apply Hsub; now left | assumption].
Qed.

Lemma inferTypes_from (nodes : list Node) (nodeType : string) :
  inferred_from nodes nodeType (inferTypes nodes nodeType).
Proof.
  unfold inferTypes.
  assert (H : forall all l fields,
             (forall n, In n l -> In n all) -> inferred_from all nodeType fields ->
             inferred_from all nodeType
               (fold_left (fun fields node =>
                             inferNodeFields (node_fields node) nodeType fields) l fields)).
  { intros all l. induction l as [|n r IH]; intros fields Hsub Hinv; simpl; [assumption|].
    apply IH; [intros m Hm; apply Hsub; now right|].
    apply (inferNodeFields_from all nodeType n); auto. apply Hsub. now left. }
  apply H; [auto|]. split; [constructor | intros ? ? []].
Qed.

Lemma inferNodeFields_get_unchanged nodeFields nodeType fields key :
  (forall v, In (key, v) nodeFields -> inferType v key nodeType = None) ->
  fields_get (inferNodeFields nodeFields nodeType fields) key = fields_get fields key.
Proof.
  revert fields. induction nodeFields as [|[k v] r IH]; intros fields H; simpl; [reflexivity|].
  rewrite IH by (intros v' Hv'; apply H; now right).
  destruct (inferType v k nodeType) as [t|] eqn:Ht; [|reflexivity].
  rewrite fields_get_set. destruct (String.eqb k key) eqn:Hk; [|reflexivity].
  apply String.eqb_eq in Hk as ->. rewrite (H v) in Ht by now left. discriminate.
Qed.

Lemma inferNodeFields_app (a b : Obj) nodeType fields :
  inferNodeFields (a ++ b)%list nodeType fields
  = inferNodeFields b nodeType (inferNodeFields a nodeType fields).
Proof.
  revert fields. induction a as [|[k v] r IH]; intros fields; simpl; [reflexivity|].
  apply IH.
Qed.

(** X25. [is32BitInt] holds exactly for the integers from [-2^31] to
    [2^31 - 1], and for no fraction, infinity or [NaN]; so a non-zero
    integer that is not a date is typed [Int] inside that range and
    [Float] outside. *)
Theorem is32BitInt_range :
  (forall z, is32BitInt (NInt z) = true <-> - 2 ^ 31 <= z < 2 ^ 31)
  /\ (forall k e, is32BitInt (NFrac k e) = false)
  /\ (forall neg, is32BitInt (NInf neg) = false)
  /\ is32BitInt NNaN = false
  /\ (forall z key nodeType,
        z <> 0 -> isDate (JNum (NInt z)) = false ->
        inferType (JNum (NInt z)) key nodeType
        = Some (mkFieldConfig (if (- 2 ^ 31 <=? z) && (z <? 2 ^ 31)
                               then GraphQLInt else GraphQLFloat) None)).
Proof.
  assert (Hr : forall z, is32BitInt (NInt z) = true <-> - 2 ^ 31 <= z < 2 ^ 31).
  { intros z. unfold is32BitInt, toInt32. rewrite Z.eqb_eq. split.
    - intros H. pose proof (Z.mod_pos_bound (z + 2 ^ 31) (2 ^ 32) ltac:(lia)). lia.
    - intros H. rewrite Z.mod_small by lia. lia. }
  split; [exact Hr|]. repeat (split; [reflexivity|]).
  intros z key nodeType Hz Hd. cbn [inferType truthy].
  destruct (z =? 0) eqn:H0; [apply Z.eqb_eq in H0; contradiction|].
  cbn [negb]. rewrite Hd. f_equal. f_equal.
  destruct (is32BitInt (NInt z)) eqn:Hi.
  - apply Hr in Hi. destruct (Z.leb_spec (- 2 ^ 31) z), (Z.ltb_spec z (2 ^ 31)); simpl; try lia.
    reflexivity.
  - destruct (Z.leb_spec (- 2 ^ 31) z), (Z.ltb_spec z (2 ^ 31)); simpl; try reflexivity.
    assert (is32BitInt (NInt z) = true) by (apply Hr; lia). congruence.
Qed.

(** X26. [inferType] answers no type exactly when the value is falsy
    or is a list that leads, through first elements, to a falsy value or
    an empty list; every other value has a type. *)
Theorem inferType_none_iff (value : JsVal) (key nodeType : string) :
  inferType value key nodeType = None <-> leads_to_falsy value = true.
Proof.
  induction value as [| | b | n | s |items IH|props IH] using JsVal_nested_ind;
    try (simpl; tauto).
  - simpl. destruct b; simpl; [|tauto]. destruct (isDate (JBool true)); split; discriminate.
  - cbn [inferType leads_to_falsy]. destruct (truthy (JNum n)); simpl; [|tauto].
    destruct (isDate (JNum n)); split; discriminate.
  - cbn [inferType leads_to_falsy]. destruct (truthy (JStr s)); simpl; [|tauto].
    destruct (isDate (JStr s)); split; discriminate.
  - destruct items as [|first rest]; [simpl; tauto|].
    apply Forall_cons in IH as [IH _].
    change (inferType (JArr (first :: rest)) key nodeType)
      with (match inferType first key nodeType with
            | Some type => Some (mkFieldConfig (GraphQLList (fc_type type)) (Some ResolveList))
            | None => None
            end).
    cbn [leads_to_falsy]. rewrite <- IH.
    destruct (inferType first key nodeType); split; congruence.
  - cbn [inferType leads_to_falsy truthy negb].
    destruct (isDate (JObj props)); split; discriminate.
Qed.

(** X27. The type map of [inferTypes] has no key twice; each of its
    types is the type inferred from a field of that name of one of the
    nodes; and its keys are exactly the field names under which some node
    has a value with a type. *)
Theorem inferTypes_entries (nodes : list Node) (nodeType : string) :
  List.NoDup (List.map fst (inferTypes nodes nodeType))
  /\ (forall key type, In (key, type) (inferTypes nodes nodeType) ->
        exists node value, In node nodes /\ In (key, value) (node_fields node)
                           /\ inferType value key nodeType = Some type)
  /\ (forall key, In key (List.map fst (inferTypes nodes nodeType)) <->
        exists node value, In node nodes /\ In (key, value) (node_fields node)
                           /\ inferType value key nodeType <> None).
Proof.
  destruct (inferTypes_from nodes nodeType) as [Hnd Hfrom].
  split; [assumption|]. split; [assumption|].
  intros key. split.
  - intros Hin. apply in_map_iff in Hin as ([k t] & <- & Hin).
    destruct (Hfrom _ _ Hin) as (node & value & Hn & Hf & Ht).
    exists node, value. repeat split; try assumption. simpl. congruence.
  - intros (node & value & Hn & Hf & Ht).
    destruct (inferType value key nodeType) as [t|] eqn:Hi; [|contradiction].
    eapply inferTypes_has_key; eassumption.
Qed.

(** X28. Under a key the type map holds the type of the last field of
    that name, in the order of the nodes and of their fields, whose value
    has a type. *)
Theorem inferTypes_last_wins nodes nodeType before node after fb fa key value type :
  nodes = (before ++ node :: after)%list ->
  node_fields node = (fb ++ (key, value) :: fa)%list ->
  inferType value key nodeType = Some type ->
  (forall v, In (key, v) fa -> inferType v key nodeType = None) ->
  (forall n v, In n after -> In (key, v) (node_fields n) ->
               inferType v key nodeType = None) ->
  fields_get (inferTypes nodes nodeType) key = Some type.
Proof.
  intros -> Hf Ht Hfa Hafter. unfold inferTypes.
  rewrite fold_left_app. cbn [fold_left].
  set (F0 := fold_left _ before []).
  assert (Hn : fields_get (inferNodeFields (node_fields node) nodeType F0) key = Some type).
  { rewrite Hf, inferNodeFields_app. cbn [inferNodeFields]. rewrite Ht.
    rewrite inferNodeFields_get_unchanged by assumption.
    rewrite fields_get_set, String.eqb_refl. reflexivity. }
  revert Hn. generalize (inferNodeFields (node_fields node) nodeType F0). clear F0.
  induction after as [|n r IH]; intros F Hn; simpl; [assumption|].
  apply IH.
  - intros m v Hm. apply Hafter. now right.
  - rewrite inferNodeFields_get_unchanged; [assumption|].
    intros v Hv. apply (Hafter n); [now left | assumption].
Qed.

(** X29. An object that is not a date always has a type: an object type
    named [createTypeName(nodeType, key)] with one field for every own
    property, in order and under the same key, holding what [inferType]
    answers for the value under the new type's name, also when that is no
    type; so the type of an object nested under [k] is named
    [createTypeName] of the outer type's name and [k]. *)
Theorem inferType_object (obj : list (string * JsVal)) (key nodeType : string) :
  isDate (JObj obj) = false ->
  exists fields,
    inferType (JObj obj) key nodeType
    = Some (mkFieldConfig (GraphQLObjectType (createTypeName nodeType key) fields) None)
    /\ List.map fst fields = List.map fst obj
    /\ (forall i k v, obj !! i = Some (k, v) ->
          fields !! i = Some (k, inferType v k (createTypeName nodeType key)))
    /\ (forall k v inner,
          In (k, v) obj -> v = JObj inner -> isDate v = false ->
          exists nested,
            In (k, Some (mkFieldConfig
                           (GraphQLObjectType
                              (createTypeName (createTypeName nodeType key) k) nested)
                           None)) fields).
Proof.
  intros Hd.
  exists (List.map (fun kv => (fst kv, inferType (snd kv) (fst kv)
                                         (createTypeName nodeType key))) obj).
  split; [|split; [|split]].
  - cbn [inferType truthy negb]. rewrite Hd. reflexivity.
  - rewrite List.map_map. reflexivity.
  - intros i k v Hi. rewrite list_lookup_fmap, Hi. reflexivity.
  - intros k v inner Hin -> Hdv.
    exists (List.map (fun kv => (fst kv, inferType (snd kv) (fst kv)
                       (createTypeName (createTypeName nodeType key) k))) inner).
    apply in_map_iff. exists (k, JObj inner). split; [|assumption].
    cbn [fst snd inferType truthy negb]. rewrite Hdv. reflexivity.
Qed.

(** X30. A list that has a type has the list type of the type of its first
    element, with the resolver for lists; whatever is stored, that resolver
    answers an array: the stored value when it is one, the empty array
    otherwise. *)
Theorem list_field_resolver (items : list JsVal) (key nodeType : string) (type : FieldConfig) :
  inferType (JArr items) key nodeType = Some type ->
  fc_resolve type = Some ResolveList
  /\ (exists first rest inner,
        items = first :: rest
        /\ inferType first key nodeType = Some inner
        /\ fc_type type = GraphQLList (fc_type inner))
  /\ forall fields fieldName,
       isArray (resolveList fields fieldName) = true
       /\ (resolveList fields fieldName = get fields fieldName
           \/ (isArray (get fields fieldName) = false
               /\ resolveList fields fieldName = JArr [])).
Proof.
  intros H. destruct items as [|first rest]; [discriminate|].
  change (inferType (JArr (first :: rest)) key nodeType)
    with (match inferType first key nodeType with
          | Some type => Some (mkFieldConfig (GraphQLList (fc_type type)) (Some ResolveList))
          | None => None
          end) in H.
  destruct (inferType first key nodeType) as [inner|] eqn:Hi; [|discriminate].
  injection H as <-. split; [reflexivity|].
  split; [exists first, rest, inner; auto|].
  intros fields fieldName. unfold resolveList.
  destruct (isArray (get fields fieldName)) eqn:Ha; auto.
Qed.

End FurtherProperties.

(* ===================================================================== *)
(** * The properties in the concrete environment *)
(* ===================================================================== *)

(** ** The camelcase stand-in keeps identifiers *)

Ltac ascii_cases c := destruct c as [[] [] [] [] [] [] [] []].

Lemma to_lower_word_or_separator (c : ascii) :
  Sample.word_or_separator c = true -> Sample.word_or_separator (Str.to_lower c) = true.
Proof. ascii_cases c; vm_compute; congruence. Qed.

Lemma to_lower_word (c : ascii) :
  Str.is_word c = true -> Str.is_word (Str.to_lower c) = true.
Proof. ascii_cases c; vm_compute; congruence. Qed.

Lemma to_upper_alnum (c : ascii) :
  is_alnum c = true -> is_alnum (Str.to_upper c) = true.
Proof. ascii_cases c; vm_compute; congruence. Qed.

Lemma not_separator_alnum (c : ascii) :
  Sample.word_or_separator c = true -> Sample.is_separator c = false -> is_alnum c = true.
Proof. ascii_cases c; vm_compute; congruence. Qed.

Lemma alnum_word (c : ascii) : is_alnum c = true -> Str.is_word c = true.
Proof. unfold is_alnum, Str.is_word. intros ->. reflexivity. Qed.

Lemma alnum_not_underscore (c : ascii) : is_alnum c = true -> Ascii.eqb "_" c = false.
Proof. ascii_cases c; vm_compute; congruence. Qed.

Lemma drop_while_Forall (P : ascii -> Prop) (p : ascii -> bool) (l : list ascii) :
  Forall P l -> Forall P (Sample.drop_while p l).
Proof.
  induction 1 as [|c r Hc Hr IH]; simpl; [constructor|].
  destruct (p c); [assumption | now constructor].
Qed.

Lemma trim_Forall (P : ascii -> Prop) (l : list ascii) :
  Forall P l -> Forall P (Sample.trim l).
Proof.
  intros H. unfold Sample.trim.
  apply Forall_rev, drop_while_Forall, Forall_rev, drop_while_Forall, H.
Qed.

Lemma preserveCamelCase_Forall (P : ascii -> Prop) (l out : list ascii) (a b c : bool) :
  P "-"%char -> Forall P l -> Forall P out ->
  Forall P (Sample.preserveCamelCase l a b c out).
Proof.
  intros Hdash Hl. revert a b c out.
  induction Hl as [|x r Hx Hr IH]; intros a b c out Hout; simpl.
  - now apply Forall_rev.
  - destruct (a && Str.is_upper x).
    { apply IH. repeat constructor; assumption. }
    destruct (b && c && Str.is_lower x).
    { apply IH. destruct out as [|prev out']; [repeat constructor; assumption|].
      inversion Hout; subst. repeat constructor; assumption. }
    apply IH. now constructor.
Qed.

Lemma map_to_lower_Forall (l : list ascii) :
  Forall (fun c => Sample.word_or_separator c = true) l ->
  Forall (fun c => Sample.word_or_separator c = true) (List.map Str.to_lower l).
Proof.
  induction 1; simpl; constructor; auto using to_lower_word_or_separator.
Qed.

Lemma upperAfterSeparators_alnum (l run : list ascii) :
  Forall (fun c => Sample.word_or_separator c = true) l ->
  Forall (fun c => is_alnum c = true) (Sample.upperAfterSeparators l run).
Proof.
  intros Hl. revert run.
  induction Hl as [|x r Hx Hr IH]; intros run; simpl; [constructor|].
  destruct (Sample.is_separator x) eqn:Hs; [apply IH|].
  pose proof (not_separator_alnum x Hx Hs) as Ha.
  destruct run as [|s run'].
  - constructor; [assumption | apply IH].
  - rewrite (alnum_word x Ha). constructor; [now apply to_upper_alnum | apply IH].
Qed.

Lemma upperAfterDigits_alnum (l : list ascii) (d : bool) :
  Forall (fun c => is_alnum c = true) l ->
  Forall (fun c => is_alnum c = true) (Sample.upperAfterDigits l d).
Proof.
  intros Hl. revert d.
  induction Hl as [|x r Hx Hr IH]; intros d; simpl; constructor; auto.
  destruct d; [now apply to_upper_alnum | assumption].
Qed.

Lemma camelCase_chars_result (input : list ascii) :
  Forall (fun c => Str.is_word c = true) input ->
  let out := Sample.camelCase_chars false input in
  (exists c, out = [c] /\ Str.is_word c = true)
  \/ Forall (fun c => is_alnum c = true) out.
Proof.
  intros Hin. cbv zeta. unfold Sample.camelCase_chars.
  pose proof (trim_Forall _ _ Hin) as Ht.
  destruct (Sample.trim input) as [|c1 [|c2 rest]] eqn:Htrim.
  - right. constructor.
  - left. eexists. split; [reflexivity|].
    inversion Ht; subst. now apply to_lower_word.
  - right. set (t := c1 :: c2 :: rest) in *.
    assert (Hws : Forall (fun c => Sample.word_or_separator c = true) t).
    { eapply Forall_impl; [exact Ht|]. intros c Hc. simpl in Hc.
      unfold Sample.word_or_separator. now rewrite Hc. }
    set (u := if existsb Str.is_upper t then _ else t).
    assert (Hu : Forall (fun c => Sample.word_or_separator c = true) u).
    { subst u. destruct (existsb Str.is_upper t); [|assumption].
      apply preserveCamelCase_Forall; [reflexivity | assumption | constructor]. }
    set (v := List.map Str.to_lower (Sample.drop_while Sample.is_separator u)).
    assert (Hv : Forall (fun c => Sample.word_or_separator c = true) v).
    { subst v. apply map_to_lower_Forall, drop_while_Forall, Hu. }
    pose proof (upperAfterDigits_alnum _ false (upperAfterSeparators_alnum v [] Hv)) as Hw.
    destruct (Sample.upperAfterDigits _ false); [constructor | assumption].
Qed.

Lemma forallb_string_of_list (p : ascii -> bool) (l : list ascii) :
  Forall (fun c => p c = true) l -> Str.forallb p (string_of_list_ascii l) = true.
Proof. induction 1 as [|c r Hc Hr IH]; simpl; [reflexivity | now rewrite Hc, IH]. Qed.

Lemma Forall_list_of_string (p : ascii -> bool) (s : string) :
  Str.forallb p s = true -> Forall (fun c => p c = true) (list_ascii_of_string s).
Proof.
  induction s as [|c r IH]; simpl; [constructor|].
  intros H. apply andb_true_iff in H as [Hc Hr]. constructor; auto.
Qed.

Lemma sample_camelCase_keeps_identifiers (unique : list string) :
  @camelCase_keeps_identifiers (Sample.env unique).
Proof.
  intros s Hs. simpl. unfold Sample.camelCase.
  destruct (camelCase_chars_result _ (Forall_list_of_string _ _ Hs))
    as [(c & -> & Hc)|Hall].
  - simpl. rewrite Hc. split; [reflexivity|].
    unfold Str.startsWith. simpl. now rewrite andb_false_r.
  - split.
    + apply forallb_string_of_list.
      eapply Forall_impl; [exact Hall|]. intros c. apply alnum_word.
    + destruct Hall as [|c r Hc Hr]; [reflexivity|].
      change (Ascii.eqb "_" c && Str.startsWith "_" (string_of_list_ascii r) = false).
      now rewrite (alnum_not_underscore c Hc).
Qed.


Import SampleStore.

(** ** Examples for the properties of [createNode] *)

(** C4, the claim as stated fails: the key ["1"] does not begin with
    ["__"] and is sanitised to ["_1"], which the grammar
    [^_?[a-zA-Z][a-zA-Z0-9]*$] does not admit. *)
Lemma createKey_leading_digit_outside_grammar :
  Str.startsWith "__" "1" = false
  /\ createKey (E := env) "1" = "_1"
  /\ identifier_grammar (createKey (E := env) "1") = false.
Proof. repeat split. Qed.

(** C4, the amended property at the key ["1st-item"]. *)
Lemma createKey_sanitised_witness :
  Str.forallb Str.is_word (createKey (E := env) "1st-item") = true
  /\ Str.startsWith "__" (createKey (E := env) "1st-item") = false.
Proof.
  apply (proj1 (proj2 (proj2 (createKey_sanitised (E := env)))
                  (sample_camelCase_keeps_identifiers _))).
Defined.

(** C9, the claim as stated fails: with a mime type that has no
    transformer and no content, [createNode] returns a node. *)
Lemma createNode_without_content_skips_transformer :
  transformers (Externals := env) "text/x-rst" = None
  /\ exists node belongsTo,
      createNode (E := env) posts now isoNow rst_options_without_content
      = Ok (node, belongsTo)
      /\ mimeType (node_internal node) = JStr "text/x-rst".
Proof. split; [reflexivity|]. eexists _, _. split; reflexivity. Qed.

(** C9, the amended property at options with content. *)
Lemma createNode_missing_transformer_witness :
  createNode (E := env) posts now isoNow rst_options
  = Throw (Error "No transformer for text/x-rst is installed.").
Proof.
  apply (proj1 (createNode_missing_transformer (E := env) posts now isoNow rst_options));
    reflexivity.
Defined.

(** C6, the claim as stated fails: a supplied path keeps the slashes after
    its first character, so the node's path contains ["//"]. *)
Lemma createNode_keeps_inner_slashes :
  createNode (E := env) posts now isoNow intro_options = Ok (intro_node, ∅)
  /\ Str.includes "//" (node_path intro_node) = true.
Proof. split; reflexivity. Qed.

(** C6, the amended property at the supplied path ["//docs//intro"]. *)
Lemma createNode_explicit_path_witness :
  exists internal options',
    createInternals now (obj_get intro_options "internal") = Ok internal
    /\ transformed (E := env) intro_options internal = Ok options'
    /\ match obj_get options' "path" with
       | JStr path =>
           node_withPath intro_node = true
           /\ node_path intro_node = String "/" (stripLeadingSlashes path)
           /\ Str.startsWith "/" (stripLeadingSlashes path) = false
       | _ =>
           node_withPath intro_node = false
           /\ makePath (E := env) posts (node_props_before_path intro_node)
              = Ok (node_path intro_node)
       end.
Proof.
  apply (proj1 (createNode_explicit_path (E := env) posts now isoNow intro_options)
           intro_node ∅).
  reflexivity.
Defined.

(** C2, the claim as stated fails: the caller supplies [title] and
    [fields.category], and the node carries the transformer's values for
    both. *)
Lemma createNode_transformer_overrides_options :
  obj_get markdown_options "title" = JStr "Mine"
  /\ exists node belongsTo,
      createNode (E := env) posts now isoNow markdown_options = Ok (node, belongsTo)
      /\ node_title node = JStr "Title from the file"
      /\ node_fields node = [("category", JStr "news"); ("author", JStr "me")].
Proof. split; [reflexivity|]. eexists _, _. repeat split; reflexivity. Qed.

(** C2, the amended property at the same options. *)
Lemma transformNodeOptions_overrides_witness :
  exists options',
    transformNodeOptions (E := env) markdown_options markdown_internal = Ok options'
    /\ obj_get options' "title" = JStr "Title from the file"
    /\ obj_get options' "slug" = JUndefined.
Proof.
  destruct (transformNodeOptions_overrides (E := env) markdown_options
              markdown_internal Sample.markdown
              (JObj [("title", JStr "Title from the file");
                     ("fields", JObj [("category", JStr "news")])]))
    as (options' & Hok & _ & Hkeys & _); [reflexivity | reflexivity | | |];
    try discriminate.
  exists options'. split; [exact Hok|]. split.
  - rewrite (Hkeys "title") by (simpl; auto). reflexivity.
  - rewrite (Hkeys "slug") by (simpl; auto). reflexivity.
Defined.

(** ** Examples for the normaliser and for type inference *)




(** C7, the code at the failing input. Every key of a node's fields whose
    value infers a type is a key of the type map, whatever the key begins
    with; a node created with the field [__meta] keeps it, and the type
    map inferred from the node has the key [__meta]. *)
Theorem inferTypes_internal_key_in_schema :
  (forall (E : Externals) nodes nodeType node key value type,
      In node nodes -> In (key, value) (node_fields node) ->
      inferType value key nodeType = Some type ->
      In key (List.map fst (inferTypes nodes nodeType)))
  /\ createNode (E := env) posts now isoNow meta_options = Ok (meta_node, ∅)
  /\ inferTypes (E := env) [meta_node] "Post"
     = [("__meta", mkFieldConfig GraphQLString None);
        ("title", mkFieldConfig GraphQLString None)].
Proof.
  split; [intros E; apply inferTypes_has_key|]. split; reflexivity.
Qed.

(** ** Examples for the unique path *)



(** ** Examples for [updateNode] *)



(** ** The further properties at sample inputs *)

(** X1 at the node of [a_options]. *)
Lemma createNode_identity_witness :
  node_id (plain_node "1" "/a") = JStr "1"
  /\ node_uid (plain_node "1" "/a") = "md5:Post1"
  /\ timestamp (node_internal (plain_node "1" "/a")) = now.
Proof.
  destruct (createNode_identity (E := env) posts now isoNow a_options
              (plain_node "1" "/a") ∅ eq_refl) as (H1 & _ & H3 & _ & H5 & _).
  split; [exact H1|]. split; [exact H3 | exact H5].
Defined.

(** X2 at the node with a [slug] field. *)
Lemma createNode_precedence_witness :
  node_title slugged_node = JStr "s" /\ node_slug slugged_node = JStr "old".
Proof.
  destruct (createNode_precedence (E := env) posts now isoNow slugged_options
              slugged_node ∅ eq_refl) as (options' & Ho & _ & Ht & _ & _ & _ & Hs).
  vm_compute in Ho. injection Ho as <-.
  split; [exact Ht | exact Hs].
Defined.

(** X3 at content for the transformer that throws. *)
Lemma addNode_transformer_failure_witness :
  createNode (E := env_broken) posts now isoNow broken_options = Throw (Raised "parse")
  /\ store_after (addNode (E := env_broken) posts empty now isoNow broken_options) = empty.
Proof.
  destruct (addNode_transformer_failure (E := env_broken) posts empty now isoNow
              broken_options broken (Raised "parse") eq_refl eq_refl eq_refl eq_refl)
    as (Hc & _ & _ & Hs & _).
  split; [exact Hc | exact Hs].
Defined.

(** X4 at the first node of the empty store. *)
Lemma addNode_then_getNode_witness :
  getNode posts (store_after (addNode (E := env) posts empty now isoNow a_options))
          (JStr "1")
  = Some (plain_node "1" "/a").
Proof.
  exact (proj1 (addNode_then_getNode (E := env) posts empty now isoNow a_options
                  (plain_node "1" "/a") eq_refl eq_refl)).
Defined.


(** X6 at a node with raw content. *)
Lemma addNode_registers_mimeType_witness :
  "text/markdown"
  ∈ mimeTypes (this_after (addNode (E := env) posts empty now isoNow markdown_options)).
Proof.
  destruct (addNode_registers_mimeType (E := env) posts empty now isoNow markdown_options)
    as (_ & _ & _ & H & _).
  destruct (createNode (E := env) posts now isoNow markdown_options) as [[n bt]|e] eqn:Hc;
    [|vm_compute in Hc; discriminate].
  specialize (H n bt eq_refl).
  vm_compute in Hc. injection Hc as <- <-. exact (H eq_refl).
Defined.



(** X9 at the store with one node. *)
Lemma removeNode_removes_witness :
  let s := store_after (addNode (E := env) posts empty now isoNow a_options) in
  returned (removeNode posts s (JStr "1")) = Ok tt
  /\ getNode posts (store_after (removeNode posts s (JStr "1"))) (JStr "1") = None.
Proof.
  cbv zeta.
  destruct (proj1 (removeNode_removes posts
                     (store_after (addNode (E := env) posts empty now isoNow a_options))
                     (JStr "1"))
                  (plain_node "1" "/a") eq_refl) as (H1 & H2 & _).
  split; assumption.
Defined.

(** X10 at the first node of the empty store. *)
Lemma addNode_then_removeNode_witness :
  let s := store_after (addNode (E := env) posts empty now isoNow a_options) in
  index (store_after (removeNode posts s (JStr "1"))) = [].
Proof.
  cbv zeta.
  destruct (addNode_then_removeNode (E := env) posts empty now isoNow a_options
              (plain_node "1" "/a")) as (_ & H & _).
  - simpl. auto.
  - reflexivity.
  - reflexivity.
  - exact H.
Defined.

(** X11: the node with a [slug] field, updated with another. *)
Lemma updateNode_syncs_index_witness :
  let s := store_after (addNode (E := env) posts empty now isoNow slugged_options) in
  let r := updateNode (E := env) posts s later later (JStr "s") reslugged_options in
  length (index (store_after r)) = 1%nat
  /\ effects r = [Change (Some reslugged_node) (Some slugged_node)].
Proof.
  cbv zeta.
  destruct (updateNode_syncs_index (E := env) posts
              (store_after (addNode (E := env) posts empty now isoNow slugged_options))
              later later (JStr "s") reslugged_options reslugged_node eq_refl)
    as (old & entry & belongsTo & Hget & _ & _ & _ & Hlen & _ & Heff).
  vm_compute in Hget. injection Hget as <-.
  split; [exact Hlen | exact Heff].
Defined.

(** X12 at an identifier the empty store does not hold. *)
Lemma updateNode_unknown_or_null_witness :
  returned (updateNode (E := env) posts empty later later (JStr "1") hello_options)
  = Throw TypeError.
Proof.
  exact (proj1 (updateNode_unknown_or_null (E := env) posts empty later later (JStr "1")
                  hello_options (or_introl eq_refl))).
Defined.

(** X13 at an update with content no transformer reads. *)
Lemma updateNode_failure_witness :
  let s := store_after (addNode (E := env) posts empty now isoNow hello_options) in
  let r := updateNode (E := env) posts s later later (JStr "1") rst_options in
  effects r = [] /\ index (store_after r) = index s.
Proof.
  cbv zeta.
  destruct (updateNode_failure (E := env) posts
              (store_after (addNode (E := env) posts empty now isoNow hello_options))
              later later (JStr "1") rst_options
              (Error "No transformer for text/x-rst is installed.") eq_refl)
    as (H1 & H2 & _).
  split; assumption.
Defined.

(** X14 at the same update: the stored node has the new [internal]. *)
Lemma updateNode_missing_transformer_witness :
  let s := store_after (addNode (E := env) posts empty now isoNow hello_options) in
  let r := updateNode (E := env) posts s later later (JStr "1") rst_options in
  returned r = Throw (Error "No transformer for text/x-rst is installed.")
  /\ getNode posts (store_after r) (JStr "1")
     = Some (assign_internal hello_node
               {| origin := JUndefined; mimeType := JStr "text/x-rst";
                  content := JStr "Hi"; timestamp := later |}).
Proof.
  cbv zeta.
  destruct (updateNode_missing_transformer (E := env) posts
              (store_after (addNode (E := env) posts empty now isoNow hello_options))
              later later (JStr "1") rst_options hello_node
              eq_refl eq_refl eq_refl eq_refl) as (H1 & H2 & _).
  split; [exact H1 | exact H2].
Defined.

(** X15: the slug changes with the field, the path is still made from the
    previous field. *)
Lemma updateNode_path_from_previous_fields_witness :
  let s := store_after (addNode (E := env) posts empty now isoNow slugged_options) in
  returned (updateNode (E := env) posts s later later (JStr "s") reslugged_options)
  = Ok reslugged_node
  /\ node_slug reslugged_node = JStr "new"
  /\ makePath (E := env) posts (node_props (before_path_update reslugged_node slugged_node))
     = Ok "/2019/old".
Proof.
  cbv zeta. split; [reflexivity|]. split; [reflexivity|].
  destruct (updateNode_path_from_previous_fields (E := env) posts
              (store_after (addNode (E := env) posts empty now isoNow slugged_options))
              later later (JStr "s") reslugged_options reslugged_node eq_refl)
    as (old & internal & options' & Hget & Hi & Ho & Hpath & _).
  vm_compute in Hget. injection Hget as <-.
  vm_compute in Hi. injection Hi as <-.
  vm_compute in Ho. injection Ho as <-.
  exact Hpath.
Defined.

(** X16 at a list of two identifiers. *)
Lemma declared_refs_recorded_witness :
  exists fields belongsTo,
    processNodeFields (E := env) authored two_authors JUndefined = Ok (fields, belongsTo)
    /\ recorded belongsTo "Author" "42" /\ recorded belongsTo "Author" "7".
Proof.
  destruct (processNodeFields (E := env) authored two_authors JUndefined)
    as [[fields belongsTo]|e] eqn:Hp; [|vm_compute in Hp; discriminate].
  exists fields, belongsTo. split; [reflexivity|].
  destruct (declared_refs_recorded (E := env) authored two_authors JUndefined
              fields belongsTo Hp "author" author_options (or_introl eq_refl))
    as (_ & _ & _ & Hr & _).
  vm_compute in Hp. injection Hp as <- _.
  split; [apply (Hr (JStr "42")) | apply (Hr (JNum (NInt 7)))]; simpl; auto.
Defined.

(** X17 at a reference declared without options. *)
Lemma declared_ref_without_options_witness :
  processNodeFields (E := env) unready (JObj []) JUndefined = Throw TypeError.
Proof.
  apply (declared_ref_without_options (E := env) unready (JObj []) JUndefined
           "author" JUndefined); [left; reflexivity | right; reflexivity].
Defined.

(** X18 at the same list, the reference being the first declared. *)
Lemma addReference_then_processNodeFields_witness :
  exists fields belongsTo,
    processNodeFields (E := env) (addReference (E := env) posts "author" author_options)
                      two_authors JUndefined
    = Ok (fields, belongsTo)
    /\ recorded belongsTo "Author" "42".
Proof.
  destruct (processNodeFields (E := env) (addReference (E := env) posts "author" author_options)
              two_authors JUndefined)
    as [[fields belongsTo]|e] eqn:Hp; [|vm_compute in Hp; discriminate].
  exists fields, belongsTo. split; [reflexivity|].
  destruct (addReference_then_processNodeFields (E := env) posts "author" author_options
              two_authors JUndefined fields belongsTo Hp) as (Hr & _).
  vm_compute in Hp. injection Hp as <- _.
  apply (Hr (JStr "42")). simpl. auto.
Defined.

(** X21 at the key [my-title]. *)
Lemma processFields_scalar_field_witness :
  obj_get (fst (processFields (E := env) false JUndefined (JObj raw_fields) ∅)) "myTitle"
  = JStr "x".
Proof.
  apply (processFields_scalar_field (E := env) false JUndefined raw_fields
           [] "my-title" (JStr "x") [("tags", JArr [JArr [JStr "a"; JStr "b"]])] ∅).
  - reflexivity.
  - reflexivity.
  - reflexivity.
  - intros k [<-|[]]. vm_compute. discriminate.
Defined.

(** X22 at a list of two strings inside a list. *)
Lemma list_in_list_becomes_object_witness :
  exists items',
    fst (processEntry (E := env) false JUndefined "tags"
           (JArr [JArr [JStr "a"; JStr "b"]]) [] ∅)
    = [("tags", JArr items')]
    /\ length items' = 1%nat.
Proof.
  destruct (list_in_list_becomes_object (E := env) false JUndefined "tags"
              [JArr [JStr "a"; JStr "b"]] [] ∅ eq_refl) as (items' & H1 & H2 & _).
  exists items'. split; [exact H1 | exact H2].
Defined.

(** X23 at a node created in 2019. *)
Lemma makePath_route_params_witness :
  exists params,
    "/2019/a" = route params /\ obj_get params "year" = JStr "2019".
Proof.
  destruct (makePath_route_params (E := env) posts (node_props_before_path meta_node)
              "/2019/a" eq_refl) as (params & Hp & Hd & _).
  exists params. split; [exact Hp|].
  apply Hd; [left; reflexivity | reflexivity].
Defined.


(** X28 at three nodes whose [title] is a number, a string and the empty
    string. *)
Lemma inferTypes_last_wins_witness :
  fields_get (inferTypes (E := env) [numbered_node; meta_node; untitled_node] "Post") "title"
  = Some (mkFieldConfig GraphQLString None).
Proof.
  apply (inferTypes_last_wins (E := env) [numbered_node; meta_node; untitled_node] "Post"
           [numbered_node] meta_node [untitled_node] [("__meta", JStr "draft")] []
           "title" (JStr "A")).
  - reflexivity.
  - reflexivity.
  - reflexivity.
  - intros v [].
  - intros n v [<-|[]] [[= <-]|[]]. reflexivity.
Defined.

(** X29 at an address with coordinates. *)
Lemma inferType_object_witness :
  exists fields,
    inferType (E := env) (JObj address) "address" "Post"
    = Some (mkFieldConfig (GraphQLObjectType "PostAddress" fields) None)
    /\ List.map fst fields = ["city"; "geo"].
Proof.
  destruct (inferType_object (E := env) address "address" "Post" eq_refl)
    as (fields & H1 & H2 & _).
  exists fields. split; [exact H1 | exact H2].
Defined.

(** X30 at a list of one string, and a stored value that is no list. *)
Lemma list_field_resolver_witness :
  resolveList (JObj [("tags", JStr "x")]) "tags" = JArr [].
Proof.
  destruct (list_field_resolver (E := env) [JStr "a"] "tags" "Post"
              (mkFieldConfig (GraphQLList GraphQLString) (Some ResolveList)) eq_refl)
    as (_ & _ & H).
  destruct (H (JObj [("tags", JStr "x")]) "tags") as [_ [Heq|[_ Heq]]]; [|exact Heq].
  vm_compute in Heq. discriminate.
Defined.
